(** * drone_mobile: a shallow embedding of the token manager, the API client
    and the domain-model parsers, with the properties of the specification.

    Python values are modelled by their JSON shape ([json]); Python exceptions
    by [exn] with the class hierarchy of [exceptions.py] and of the standard
    library; stateful methods by a state-and-exception monad [M] in which
    assignments made before an exception is raised survive it, as in Python. *)

From Stdlib Require Import ZArith QArith Qround String Ascii List Bool Lia.
Import ListNotations.

#[local] Set Warnings "-register-all".
Open Scope string_scope.
Open Scope Z_scope.

(* ------------------------------------------------------------------ *)
(** ** Exceptions *)

Inductive exn : Type :=
  (* builtins and standard library *)
  | KeyError | ValueError | JSONDecodeError | TypeError | AttributeError
  | OverflowError | OSError | RecursionError
  (* filelock *)
  | FileLockTimeout
  (* drone_mobile.exceptions *)
  | AuthenticationError | TokenExpiredError | InvalidCredentialsError
  | APIError (status_code : Z) | CommandFailedError (status_code : Z)
  | RateLimitError (status_code : Z)
  | VehicleNotFoundError | InvalidCommandError | NetworkError.

(** Exception classes, for [except] clauses. *)
Inductive exc_class : Type :=
  | CException | CKeyError | CValueError | CJSONDecodeError | CTypeError
  | CAttributeError | COverflowError | COSError | CRecursionError | CTimeout
  | CDroneMobileException | CAuthenticationError | CTokenExpiredError
  | CInvalidCredentialsError | CAPIError | CCommandFailedError | CRateLimitError
  | CVehicleNotFoundError | CInvalidCommandError | CNetworkError.

Definition class_of (e : exn) : exc_class :=
  match e with
  | KeyError => CKeyError | ValueError => CValueError
  | JSONDecodeError => CJSONDecodeError | TypeError => CTypeError
  | AttributeError => CAttributeError | OverflowError => COverflowError
  | OSError => COSError | RecursionError => CRecursionError
  | FileLockTimeout => CTimeout
  | AuthenticationError => CAuthenticationError
  | TokenExpiredError => CTokenExpiredError
  | InvalidCredentialsError => CInvalidCredentialsError
  | APIError _ => CAPIError | CommandFailedError _ => CCommandFailedError
  | RateLimitError _ => CRateLimitError
  | VehicleNotFoundError => CVehicleNotFoundError
  | InvalidCommandError => CInvalidCommandError
  | NetworkError => CNetworkError
  end.

(** Direct base class ([None] for [Exception] itself). *)
Definition parent (c : exc_class) : option exc_class :=
  match c with
  | CException => None
  | CJSONDecodeError => Some CValueError
  | CTimeout => Some COSError (* filelock.Timeout derives from TimeoutError, an OSError *)
  | CAuthenticationError | CAPIError | CVehicleNotFoundError
  | CInvalidCommandError | CNetworkError => Some CDroneMobileException
  | CTokenExpiredError | CInvalidCredentialsError => Some CAuthenticationError
  | CCommandFailedError | CRateLimitError => Some CAPIError
  | _ => Some CException
  end.

Definition exc_class_eqb (a b : exc_class) : bool :=
  match a, b with
  | CException, CException | CKeyError, CKeyError | CValueError, CValueError
  | CJSONDecodeError, CJSONDecodeError | CTypeError, CTypeError
  | CAttributeError, CAttributeError | COverflowError, COverflowError
  | COSError, COSError | CRecursionError, CRecursionError | CTimeout, CTimeout
  | CDroneMobileException, CDroneMobileException
  | CAuthenticationError, CAuthenticationError
  | CTokenExpiredError, CTokenExpiredError
  | CInvalidCredentialsError, CInvalidCredentialsError | CAPIError, CAPIError
  | CCommandFailedError, CCommandFailedError | CRateLimitError, CRateLimitError
  | CVehicleNotFoundError, CVehicleNotFoundError
  | CInvalidCommandError, CInvalidCommandError | CNetworkError, CNetworkError => true
  | _, _ => false
  end.

(** [isinstance e c]: walk the (at most four deep) base-class chain. *)
Fixpoint subclass_fuel (n : nat) (c target : exc_class) : bool :=
  exc_class_eqb c target ||
  match n with
  | O => false
  | S n' => match parent c with Some p => subclass_fuel n' p target | None => false end
  end.

Definition isinstance (e : exn) (c : exc_class) : bool :=
  subclass_fuel 5 (class_of e) c.

Definition catches (cs : list exc_class) (e : exn) : bool :=
  existsb (isinstance e) cs.

(* ------------------------------------------------------------------ *)
(** ** State and exception monad *)

Inductive result (A : Type) : Type :=
  | Ok (a : A)
  | Err (e : exn).
Arguments Ok {A} a.
Arguments Err {A} e.

Definition M (S A : Type) : Type := S -> result A * S.

Definition ret {S A} (a : A) : M S A := fun s => (Ok a, s).
Definition raise {S A} (e : exn) : M S A := fun s => (Err e, s).
Definition bind {S A B} (m : M S A) (k : A -> M S B) : M S B :=
  fun s => match m s with
           | (Ok a, s') => k a s'
           | (Err e, s') => (Err e, s')
           end.
Definition get {S} : M S S := fun s => (Ok s, s).
Definition put {S} (s : S) : M S unit := fun _ => (Ok tt, s).
Definition modify {S} (f : S -> S) : M S unit := fun s => (Ok tt, f s).

(** A pure computation that may raise. *)
Definition lift {S A} (r : result A) : M S A := fun s => (r, s).

(** [try m except cs: h]: the state reached when the exception was raised is
    kept, as the assignments done before it are. *)
Definition try_except {S A} (m : M S A) (cs : list exc_class) (h : exn -> M S A)
  : M S A :=
  fun s => match m s with
           | (Err e, s') => if catches cs e then h e s' else (Err e, s')
           | r => r
           end.

Notation "x <- m ;; k" := (bind m (fun x => k))
  (at level 61, m at next level, right associativity).
Notation "m ;;; k" := (bind m (fun _ => k))
  (at level 61, right associativity).

(** Pure [result] binding. *)
Definition rbind {A B} (r : result A) (k : A -> result B) : result B :=
  match r with Ok a => k a | Err e => Err e end.
Notation "x <-- r ;; k" := (rbind r (fun x => k))
  (at level 61, r at next level, right associativity).

(* ------------------------------------------------------------------ *)
(** ** JSON values (the Python values that [json.load] produces)

    Objects are association lists in insertion order, as Python dicts are;
    [None] is [JNull]. Numbers keep Python's int/float distinction; a float is
    represented by the exact rational it denotes. *)

Inductive json : Type :=
  | JNull
  | JBool (b : bool)
  | JInt (z : Z)
  | JFloat (q : Q)
  | JStr (s : string)
  | JArr (l : list json)
  | JObj (kvs : list (string * json)).

Fixpoint assoc (k : string) (kvs : list (string * json)) : option json :=
  match kvs with
  | [] => None
  | (k', v) :: r => if String.eqb k k' then Some v else assoc k r
  end.

(** [d[k] = v]: replace the value of an existing key in place, else append. *)
Fixpoint assoc_set (k : string) (v : json) (kvs : list (string * json))
  : list (string * json) :=
  match kvs with
  | [] => [(k, v)]
  | (k', v') :: r => if String.eqb k k' then (k', v) :: r else (k', v') :: assoc_set k v r
  end.

(** Python truthiness. *)
Definition truthy (v : json) : bool :=
  match v with
  | JNull => false
  | JBool b => b
  | JInt z => negb (z =? 0)
  | JFloat q => negb (Qeq_bool q 0)
  | JStr s => negb (String.eqb s "")
  | JArr l => negb (Nat.eqb (length l) 0)
  | JObj kvs => negb (Nat.eqb (length kvs) 0)
  end.

(** [v.get(k, default)]: only dicts have [get]. *)
Definition py_get (v : json) (k : string) (default : json) : result json :=
  match v with
  | JObj kvs => Ok (match assoc k kvs with Some x => x | None => default end)
  | _ => Err AttributeError
  end.

(** [v[k]] with a string key. *)
Definition py_getitem (v : json) (k : string) : result json :=
  match v with
  | JObj kvs => match assoc k kvs with Some x => Ok x | None => Err KeyError end
  | _ => Err TypeError
  end.

(** [v[k] = x] with a string key. *)
Definition py_setitem (v : json) (k : string) (x : json) : result json :=
  match v with
  | JObj kvs => Ok (JObj (assoc_set k x kvs))
  | _ => Err TypeError
  end.

Fixpoint json_eqb (a b : json) : bool :=
  match a, b with
  | JNull, JNull => true
  | JBool x, JBool y => Bool.eqb x y
  | JInt x, JInt y => Z.eqb x y
  | JFloat x, JFloat y => Qeq_bool x y
  | JInt x, JFloat y | JFloat y, JInt x => Qeq_bool (inject_Z x) y
  | JStr x, JStr y => String.eqb x y
  | JArr xs, JArr ys =>
      (fix go xs ys := match xs, ys with
                       | [], [] => true
                       | x :: xs', y :: ys' => json_eqb x y && go xs' ys'
                       | _, _ => false end) xs ys
  | JObj _, JObj _ => false (* dict equality is not needed below *)
  | _, _ => false
  end.

(** Substring test, for [k in s] on strings. *)
Fixpoint is_substring (k s : string) : bool :=
  String.prefix k s ||
  match s with
  | EmptyString => false
  | String _ s' => is_substring k s'
  end.

(** [k in v] with a string [k]. *)
Definition py_contains (k : string) (v : json) : result bool :=
  match v with
  | JObj kvs => Ok (match assoc k kvs with Some _ => true | None => false end)
  | JStr s => Ok (is_substring k s)
  | JArr l => Ok (existsb (json_eqb (JStr k)) l)
  | _ => Err TypeError
  end.

(** Numeric value of an int, float or bool, as arithmetic sees it. *)
Definition py_number (v : json) : result Q :=
  match v with
  | JInt z => Ok (inject_Z z)
  | JFloat q => Ok q
  | JBool b => Ok (if b then 1%Q else 0%Q)
  | _ => Err TypeError
  end.

(* ------------------------------------------------------------------ *)
(** ** [datetime]

    A datetime is its field tuple, as CPython stores it, with an optional
    fixed UTC offset in microseconds (a [timezone] tzinfo). The calendar is CPython's proleptic Gregorian one
    ([_days_before_year], [_days_before_month], [_ymd2ord], [_ord2ymd]). *)

Record datetime : Type := mkdt {
  dt_year : Z; dt_month : Z; dt_day : Z;
  dt_hour : Z; dt_minute : Z; dt_second : Z; dt_microsecond : Z;
  dt_tzoff : option Z }.

Definition is_leap (y : Z) : bool :=
  (y mod 4 =? 0) && (negb (y mod 100 =? 0) || (y mod 400 =? 0)).

Definition days_in_year (y : Z) : Z := if is_leap y then 366 else 365.

Definition days_in_month (y m : Z) : Z :=
  if m =? 2 then (if is_leap y then 29 else 28)
  else if (m =? 4) || (m =? 6) || (m =? 9) || (m =? 11) then 30
  else 31.

(** [_DAYS_BEFORE_MONTH], plus the leap day after February. *)
Definition days_before_month (y m : Z) : Z :=
  let base :=
    if m =? 1 then 0 else if m =? 2 then 31 else if m =? 3 then 59
    else if m =? 4 then 90 else if m =? 5 then 120 else if m =? 6 then 151
    else if m =? 7 then 181 else if m =? 8 then 212 else if m =? 9 then 243
    else if m =? 10 then 273 else if m =? 11 then 304 else 334 in
  base + (if (2 <? m) && is_leap y then 1 else 0).

Definition days_before_year (y : Z) : Z :=
  let y1 := y - 1 in y1 * 365 + y1 / 4 - y1 / 100 + y1 / 400.

(** Ordinal of a date, 0001-01-01 being 1. *)
Definition ymd2ord (y m d : Z) : Z :=
  days_before_year y + days_before_month y m + d.

Definition DI400Y : Z := 146097.

(** Year and day-in-year reached by walking whole years from [y]. *)
Fixpoint year_walk (fuel : nat) (y n : Z) : Z * Z :=
  match fuel with
  | O => (y, n)
  | S f => if n <? days_in_year y then (y, n) else year_walk f (y + 1) (n - days_in_year y)
  end.

Fixpoint month_walk (fuel : nat) (y m n : Z) : Z * Z :=
  match fuel with
  | O => (m, n)
  | S f => if n <? days_in_month y m then (m, n)
           else month_walk f y (m + 1) (n - days_in_month y m)
  end.

(** Inverse of [ymd2ord]: whole 400-year cycles first, as [_ord2ymd] does,
    then years and months. *)
Definition ord2ymd (n : Z) : Z * Z * Z :=
  let n0 := n - 1 in
  let '(y, dy) := year_walk 400 (n0 / DI400Y * 400 + 1) (n0 mod DI400Y) in
  let '(m, dm) := month_walk 11 y 1 dy in
  (y, m, dm + 1).

Definition US_PER_SEC : Z := 1000000.
Definition US_PER_DAY : Z := 86400 * US_PER_SEC.
(** [date(9999, 12, 31).toordinal()] *)
Definition MAXORDINAL : Z := 3652059.

(** Microseconds since 0001-01-01T00:00 on the datetime's own clock. *)
Definition local_us (d : datetime) : Z :=
  ((ymd2ord (dt_year d) (dt_month d) (dt_day d) - 1) * 86400
   + dt_hour d * 3600 + dt_minute d * 60 + dt_second d) * US_PER_SEC
  + dt_microsecond d.

(** Datetime at a local microsecond count; [None] outside years 1..9999. *)
Definition from_local_us (x : Z) (tz : option Z) : option datetime :=
  if (0 <=? x) && (x <? MAXORDINAL * US_PER_DAY) then
    let '(y, m, d) := ord2ymd (x / US_PER_DAY + 1) in
    let r := x mod US_PER_DAY in
    Some (mkdt y m d (r / (3600 * US_PER_SEC)) ((r / (60 * US_PER_SEC)) mod 60)
               ((r / US_PER_SEC) mod 60) (r mod US_PER_SEC) tz)
  else None.

(** The instant on the UTC time line, for aware datetimes. *)
Definition utc_us (d : datetime) : Z :=
  match dt_tzoff d with
  | Some off => local_us d - off
  | None => local_us d
  end.

(** [a >= b]: naive and aware datetimes cannot be ordered ([TypeError]). *)
Definition dt_ge (a b : datetime) : result bool :=
  match dt_tzoff a, dt_tzoff b with
  | None, None => Ok (local_us b <=? local_us a)
  | Some _, Some _ => Ok (utc_us b <=? utc_us a)
  | _, _ => Err TypeError
  end.

(** Round half to even, as [timedelta] and [fromtimestamp] round to
    microseconds. *)
Definition round_half_even (q : Q) : Z :=
  let f := Qfloor q in
  let r := Qminus q (inject_Z f) in
  if Qlt_le_dec r (1 # 2) then f
  else if Qlt_le_dec (1 # 2) r then f + 1
  else if Z.even f then f else f + 1.

Definition us_of_seconds (q : Q) : Z := round_half_even (Qmult q (inject_Z US_PER_SEC)).

(** [dt + timedelta(seconds=q)] *)
Definition dt_add_seconds (d : datetime) (q : Q) : result datetime :=
  match from_local_us (local_us d + us_of_seconds q) (dt_tzoff d) with
  | Some d' => Ok d'
  | None => Err OverflowError
  end.

(** Local time at 1970-01-01T00:00, in [local_us] units. *)
Definition EPOCH_LOCAL_US : Z := (ymd2ord 1970 1 1 - 1) * US_PER_DAY.

(** The host clock: the current POSIX time in microseconds and the local UTC
    offset in seconds (a fixed offset: daylight-saving changes are not
    modelled). *)
Record clock : Type := mkclock { clock_us : Z; utc_offset : Z }.

Definition local_of_posix (c : clock) (t_us : Z) : Z :=
  t_us + utc_offset c * US_PER_SEC + EPOCH_LOCAL_US.

(** [datetime.now()] *)
Definition datetime_now (c : clock) : result datetime :=
  match from_local_us (local_of_posix c (clock_us c)) None with
  | Some d => Ok d
  | None => Err OverflowError
  end.

(** [datetime.fromtimestamp(v)]: a number of seconds since the epoch, to
    local naive time. *)
Definition fromtimestamp (c : clock) (v : json) : result datetime :=
  t <-- py_number v ;;
  match from_local_us (local_of_posix c (us_of_seconds t)) None with
  | Some d => Ok d
  | None => Err ValueError
  end.

(** *** [isoformat] and [fromisoformat] (CPython 3.10, [_datetimemodule.c]) *)

Definition NUL : ascii := Ascii.zero.

Definition digit_char (d : Z) : ascii := ascii_of_nat (48 + Z.to_nat d).
Definition is_digit (c : ascii) : bool :=
  let n := nat_of_ascii c in (48 <=? n)%nat && (n <=? 57)%nat.
Definition digit_val (c : ascii) : Z := Z.of_nat (nat_of_ascii c) - 48.

(** ["%0*d" % (k, n)] for [0 <= n < 10 ^ k]. *)
Fixpoint zpad (k : nat) (n : Z) : string :=
  match k with
  | O => EmptyString
  | S k' => String (digit_char ((n / 10 ^ Z.of_nat k') mod 10)) (zpad k' n)
  end.

(** [parse_digits(p, &var, k)]: exactly [k] decimal digits. *)
Fixpoint parse_digits_acc (k : nat) (acc : Z) (s : string) : option (Z * string) :=
  match k with
  | O => Some (acc, s)
  | S k' =>
      match s with
      | EmptyString => None
      | String c s' => if is_digit c then parse_digits_acc k' (acc * 10 + digit_val c) s'
                       else None
      end
  end.

Definition parse_digits (k : nat) (s : string) : option (Z * string) :=
  parse_digits_acc k 0 s.

(** [_format_offset] *)
Definition format_offset (off : Z) : string :=
  let sign := if off <? 0 then "-" else "+" in
  let a := Z.abs off in
  let secs := a / US_PER_SEC in
  let us := a mod US_PER_SEC in
  let hh := secs / 3600 in
  let mm := (secs mod 3600) / 60 in
  let ss := secs mod 60 in
  sign ++ zpad 2 hh ++ ":" ++ zpad 2 mm
  ++ (if (ss =? 0) && (us =? 0) then "" else ":" ++ zpad 2 ss)
  ++ (if us =? 0 then "" else "." ++ zpad 6 us).

(** [datetime.isoformat()] *)
Definition isoformat (d : datetime) : string :=
  zpad 4 (dt_year d) ++ "-" ++ zpad 2 (dt_month d) ++ "-" ++ zpad 2 (dt_day d)
  ++ "T" ++ zpad 2 (dt_hour d) ++ ":" ++ zpad 2 (dt_minute d) ++ ":" ++ zpad 2 (dt_second d)
  ++ (if dt_microsecond d =? 0 then "" else "." ++ zpad 6 (dt_microsecond d))
  ++ (match dt_tzoff d with None => "" | Some off => format_offset off end).

(** [parse_isoformat_date]: ["YYYY-MM-DD"] at the start of the string. *)
Definition parse_isoformat_date (s : string) : option (Z * Z * Z * string) :=
  match parse_digits 4 s with
  | Some (y, String "-"%char s1) =>
      match parse_digits 2 s1 with
      | Some (m, String "-"%char s2) =>
          match parse_digits 2 s2 with
          | Some (d, rest) => Some (y, m, d, rest)
          | None => None
          end
      | _ => None
      end
  | _ => None
  end.

(** The loop of [parse_hh_mm_ss_ff] over hour, minute and second. [after] is
    the character found at the end of the parsed segment. *)
Inductive hms_outcome : Type :=
  | HmsFail
  | HmsDone (vals : list Z) (nonzero : bool)
  | HmsFrac (vals : list Z) (rest : string).

Fixpoint hms_fields (n : nat) (p : string) (after : ascii) (acc : list Z) : hms_outcome :=
  match n with
  | O => HmsFrac acc p
  | S n' =>
      match parse_digits 2 p with
      | None => HmsFail
      | Some (v, p') =>
          let acc' := (acc ++ [v])%list in
          match p' with
          | EmptyString => HmsDone acc' (negb (Ascii.eqb after NUL))
          | String c EmptyString => HmsDone acc' (negb (Ascii.eqb c NUL))
          | String c p'' =>
              if Ascii.eqb c ":"%char then hms_fields n' p'' after acc'
              else if Ascii.eqb c "."%char then HmsFrac acc' p''
              else HmsFail
          end
      end
  end.

(** [parse_hh_mm_ss_ff]: [None] for a negative return code, otherwise the
    fields and whether the return code is nonzero. *)
Definition parse_hh_mm_ss_ff (seg : string) (after : ascii)
  : option (Z * Z * Z * Z * bool) :=
  match hms_fields 3 seg after [] with
  | HmsFail => None
  | HmsDone vals nz => Some (nth 0 vals 0, nth 1 vals 0, nth 2 vals 0, 0, nz)
  | HmsFrac vals rest =>
      let len := String.length rest in
      if (len =? 6)%nat || (len =? 3)%nat then
        match parse_digits len rest with
        | Some (f, _) =>
            Some (nth 0 vals 0, nth 1 vals 0, nth 2 vals 0,
                  (if (len =? 3)%nat then f * 1000 else f),
                  negb (Ascii.eqb after NUL))
        | None => None
        end
      else None
  end.

(** Split at the first ['+'] or ['-'] (the search for [tzinfo_pos]). *)
Fixpoint split_tz (s : string) : string * option (ascii * string) :=
  match s with
  | EmptyString => (EmptyString, None)
  | String c s' =>
      if Ascii.eqb c "+"%char || Ascii.eqb c "-"%char then (EmptyString, Some (c, s'))
      else let '(seg, tz) := split_tz s' in (String c seg, tz)
  end.

(** [parse_isoformat_time]: hour, minute, second, microsecond and the UTC
    offset in microseconds, if any. *)
Definition parse_isoformat_time (s : string) : option (Z * Z * Z * Z * option Z) :=
  let '(seg, tz) := split_tz s in
  match tz with
  | None =>
      match parse_hh_mm_ss_ff seg NUL with
      | Some (h, mi, se, us, false) => Some (h, mi, se, us, None)
      | _ => None (* trailing characters without a time zone *)
      end
  | Some (sgn, tzs) =>
      match parse_hh_mm_ss_ff seg sgn with
      | Some (h, mi, se, us, _) =>
          (* +HH:MM, +HH:MM:SS or +HH:MM:SS.ffffff *)
          let tzlen := String.length tzs in
          if negb ((tzlen =? 5)%nat || (tzlen =? 8)%nat || (tzlen =? 15)%nat) then None
          else
          match parse_hh_mm_ss_ff tzs NUL with
          | Some (th, tm, ts, tus, false) =>
              let sign := if Ascii.eqb sgn "-"%char then -1 else 1 in
              Some (h, mi, se, us,
                    Some (sign * (((th * 3600 + tm * 60 + ts) * US_PER_SEC) + tus)))
          | _ => None
          end
      | None => None
      end
  end.

(** The range checks of [new_datetime] and [timezone]. *)
Definition valid_datetime (d : datetime) : bool :=
  (1 <=? dt_year d) && (dt_year d <=? 9999)
  && (1 <=? dt_month d) && (dt_month d <=? 12)
  && (1 <=? dt_day d) && (dt_day d <=? days_in_month (dt_year d) (dt_month d))
  && (0 <=? dt_hour d) && (dt_hour d <? 24)
  && (0 <=? dt_minute d) && (dt_minute d <? 60)
  && (0 <=? dt_second d) && (dt_second d <? 60)
  && (0 <=? dt_microsecond d) && (dt_microsecond d <? US_PER_SEC)
  && match dt_tzoff d with
     | None => true
     | Some off => Z.abs off <? US_PER_DAY
     end.

(** [datetime.fromisoformat(v)] *)
Definition fromisoformat (v : json) : result datetime :=
  match v with
  | JStr s =>
      match parse_isoformat_date s with
      | None => Err ValueError
      | Some (y, m, d, rest) =>
          let candidate :=
            match rest with
            | EmptyString => Some (mkdt y m d 0 0 0 0 None)
            | String _ tstr =>
                match parse_isoformat_time tstr with
                | Some (h, mi, se, us, tz) => Some (mkdt y m d h mi se us tz)
                | None => None
                end
            end in
          match candidate with
          | Some dt => if valid_datetime dt then Ok dt else Err ValueError
          | None => Err ValueError
          end
      end
  | _ => Err TypeError
  end.

(* ------------------------------------------------------------------ *)
(** ** Numeric conversions of the builtins [float] and [int] *)

Definition is_space (c : ascii) : bool :=
  let n := nat_of_ascii c in (n =? 32)%nat || ((9 <=? n)%nat && (n <=? 13)%nat).

Fixpoint lstrip (s : string) : string :=
  match s with
  | String c s' => if is_space c then lstrip s' else s
  | EmptyString => EmptyString
  end.

Fixpoint string_rev_app (s acc : string) : string :=
  match s with
  | EmptyString => acc
  | String c s' => string_rev_app s' (String c acc)
  end.

Definition py_strip (s : string) : string :=
  string_rev_app (lstrip (string_rev_app (lstrip s) EmptyString)) EmptyString.

(** Leading decimal digits: their value appended to [acc], their count and
    what follows them. *)
Fixpoint take_digits (s : string) (acc : Z) (n : nat) : Z * nat * string :=
  match s with
  | String c s' => if is_digit c then take_digits s' (acc * 10 + digit_val c) (S n)
                   else (acc, n, s)
  | EmptyString => (acc, n, s)
  end.

Definition split_sign (s : string) : Z * string :=
  match s with
  | String "-"%char r => (-1, r)
  | String "+"%char r => (1, r)
  | _ => (1, s)
  end.

(** Decimal literals [[+-]digits[.digits]] (exponents, [inf] and [nan], and
    digit-group underscores are not modelled and are rejected). *)
Definition parse_float_literal (s : string) : option Q :=
  let '(sign, s1) := split_sign (py_strip s) in
  let '(ip, ni, s2) := take_digits s1 0 0 in
  match s2 with
  | EmptyString => if (0 <? ni)%nat then Some (inject_Z (sign * ip)) else None
  | String "."%char s3 =>
      let '(fp, nf, s4) := take_digits s3 ip 0 in
      match s4 with
      | EmptyString =>
          if (0 <? ni + nf)%nat then Some (Qmake (sign * fp) (Pos.of_nat (10 ^ nf)))
          else None
      | _ => None
      end
  | _ => None
  end.

Definition parse_int_literal (s : string) : option Z :=
  let '(sign, s1) := split_sign (py_strip s) in
  let '(v, n, s2) := take_digits s1 0 0 in
  match s2 with
  | EmptyString => if (0 <? n)%nat then Some (sign * v) else None
  | _ => None
  end.

(** [float(v)] *)
Definition py_float (v : json) : result Q :=
  match v with
  | JInt _ | JFloat _ | JBool _ => py_number v
  | JStr s => match parse_float_literal s with Some q => Ok q | None => Err ValueError end
  | _ => Err TypeError
  end.

(** [int(v)]: floats are truncated toward zero. *)
Definition py_int (v : json) : result Z :=
  match v with
  | JInt z => Ok z
  | JFloat q => Ok (Z.quot (Qnum q) (Zpos (Qden q)))
  | JBool b => Ok (if b then 1 else 0)
  | JStr s => match parse_int_literal s with Some z => Ok z | None => Err ValueError end
  | _ => Err TypeError
  end.

(** [s.replace(old, new)] for a one-character [old]. *)
Fixpoint replace_char (c : ascii) (new s : string) : string :=
  match s with
  | EmptyString => EmptyString
  | String c' s' => if Ascii.eqb c c' then new ++ replace_char c new s'
                    else String c' (replace_char c new s')
  end.

Definition py_replace_char (v : json) (c : ascii) (new : string) : result json :=
  match v with
  | JStr s => Ok (JStr (replace_char c new s))
  | _ => Err AttributeError
  end.

(** [try: x = f() except cs: x = None] around a computation returning a
    value. *)
Definition or_none {A} (r : result A) (cs : list exc_class) : result (option A) :=
  match r with
  | Ok a => Ok (Some a)
  | Err e => if catches cs e then Ok None else Err e
  end.

(* ------------------------------------------------------------------ *)
(** ** Domain models ([models.py]) *)

Record Location : Type := mkLocation {
  latitude : Q; longitude : Q; loc_timestamp : option datetime; accuracy : option Q }.

(** [Location.from_dict] *)
Definition Location_from_dict (data : json) : result Location :=
  lat <-- (v <-- py_get data "latitude" (JInt 0) ;; py_float v) ;;
  lon <-- (v <-- py_get data "longitude" (JInt 0) ;; py_float v) ;;
  ts <-- (c <-- py_contains "timestamp" data ;;
          if c then (v <-- py_getitem data "timestamp" ;; d <-- fromisoformat v ;; Ok (Some d))
          else Ok None) ;;
  acc <-- (c <-- py_contains "accuracy" data ;;
           if c then (v <-- py_getitem data "accuracy" ;; a <-- py_float v ;; Ok (Some a))
           else Ok None) ;;
  Ok (mkLocation lat lon ts acc).

(** Fields holding a payload value as it is ([None] is [JNull]) keep type
    [json]. *)
Record VehicleStatus : Type := mkVehicleStatus {
  vs_vehicle_id : json; vs_device_key : json;
  is_running : json; is_locked : json;
  battery_voltage : json; battery_percent : json; odometer : json; fuel_level : json;
  interior_temperature : json; exterior_temperature : json;
  location : option Location; last_updated : option datetime;
  vs_raw_data : json }.

(** [VehicleStatus.from_dict] *)
Definition VehicleStatus_from_dict (data : json) : result VehicleStatus :=
  lks <-- py_get data "last_known_state" (JObj []) ;;
  controller <-- py_get lks "controller" (JObj []) ;;
  location <-- (has_lat <-- py_contains "latitude" lks ;;
                has_both <-- (if has_lat then py_contains "longitude" lks else Ok false) ;;
                if has_both then
                  (la <-- py_getitem lks "latitude" ;; lat <-- py_float la ;;
                   lo <-- py_getitem lks "longitude" ;; lon <-- py_float lo ;;
                   Ok (Some (mkLocation lat lon None None)))
                else
                  (c <-- py_contains "location" data ;;
                   if c then (v <-- py_getitem data "location" ;;
                              l <-- Location_from_dict v ;; Ok (Some l))
                   else Ok None)) ;;
  timestamp_str <-- (t <-- py_get lks "timestamp" JNull ;;
                     if truthy t then Ok t else py_get data "last_updated" JNull) ;;
  last_updated <-- (if truthy timestamp_str then
                      r <-- or_none (s <-- py_replace_char timestamp_str "Z"%char "+00:00" ;;
                                     fromisoformat s) [CValueError; CTypeError] ;;
                      Ok r
                    else Ok None) ;;
  vid <-- (inner <-- py_get data "vehicle_id" (JStr "") ;; py_get data "id" inner) ;;
  dk <-- py_get data "device_key" (JStr "") ;;
  running <-- py_get controller "engine_on" (JBool false) ;;
  locked <-- py_get controller "armed" (JBool false) ;;
  volts <-- py_get controller "main_battery_voltage" JNull ;;
  odo <-- py_get lks "mileage" JNull ;;
  temp <-- py_get controller "current_temperature" JNull ;;
  Ok (mkVehicleStatus vid dk running locked volts JNull odo JNull temp JNull
                      location last_updated data).

Record VehicleInfo : Type := mkVehicleInfo {
  vi_vehicle_id : json; vi_device_key : json; vi_name : json;
  make : json; model : json; year : option Z; color : json; vin : json;
  vi_raw_data : json }.

(** [VehicleInfo.from_dict] *)
Definition VehicleInfo_from_dict (data : json) : result VehicleInfo :=
  vid <-- (inner <-- py_get data "vehicle_id" (JStr "") ;; py_get data "id" inner) ;;
  dk <-- py_get data "device_key" (JStr "") ;;
  name <-- (inner <-- py_get data "name" (JStr "Unknown Vehicle") ;;
            py_get data "vehicle_name" inner) ;;
  mk <-- (inner <-- py_get data "make" JNull ;; py_get data "vehicle_make" inner) ;;
  md <-- (inner <-- py_get data "model" JNull ;; py_get data "vehicle_model" inner) ;;
  yr <-- (vy <-- py_get data "vehicle_year" JNull ;;
          if truthy vy then (v <-- py_getitem data "vehicle_year" ;; y <-- py_int v ;; Ok (Some y))
          else (y0 <-- py_get data "year" JNull ;;
                if truthy y0 then (v <-- py_getitem data "year" ;; y <-- py_int v ;; Ok (Some y))
                else Ok None)) ;;
  col <-- py_get data "color" JNull ;;
  vn <-- py_get data "vin" JNull ;;
  Ok (mkVehicleInfo vid dk name mk md yr col vn data).

Record CommandResponse : Type := mkCommandResponse {
  success : json; message : json; cr_command : string; cr_device_key : string;
  cr_timestamp : option datetime; cr_raw_data : json }.

(** [CommandResponse.from_dict] *)
Definition CommandResponse_from_dict (data : json) (command device_key : string)
  : result CommandResponse :=
  ts <-- (c <-- py_contains "timestamp" data ;;
          if c then (v <-- py_getitem data "timestamp" ;;
                     or_none (fromisoformat v) [CValueError; CTypeError])
          else Ok None) ;;
  ok <-- py_get data "success" (JBool false) ;;
  msg <-- py_get data "message" (JStr "") ;;
  Ok (mkCommandResponse ok msg command device_key ts data).

Record AuthToken : Type := mkAuthToken {
  access_token : json; id_token : json; refresh_token : json; token_type : json;
  expires_at : datetime }.

(** [AuthToken.is_expired] *)
Definition is_expired (c : clock) (t : AuthToken) : result bool :=
  now <-- datetime_now c ;; dt_ge now (expires_at t).

(** [AuthToken.to_dict] *)
Definition AuthToken_to_dict (t : AuthToken) : json :=
  JObj [("access_token", access_token t); ("id_token", id_token t);
        ("refresh_token", refresh_token t); ("token_type", token_type t);
        ("expires_at", JStr (isoformat (expires_at t)))].

(** [AuthToken.from_dict] *)
Definition AuthToken_from_dict (data : json) : result AuthToken :=
  at_ <-- py_getitem data "access_token" ;;
  it <-- py_getitem data "id_token" ;;
  rt <-- py_getitem data "refresh_token" ;;
  tt <-- py_getitem data "token_type" ;;
  ea <-- (v <-- py_getitem data "expires_at" ;; fromisoformat v) ;;
  Ok (mkAuthToken at_ it rt tt ea).

(* ------------------------------------------------------------------ *)
(** ** Token manager ([auth.py], [AuthenticationManager])

    The manager's state: the in-memory token, the two token files (as the
    JSON value [json.dump] wrote, or unparsable text), whether another
    process holds the file lock beyond the 10-second timeout, the identity
    provider (its answer to the n-th request), the requests sent so far, the
    clock and the warnings and errors logged. The [threading.Lock] only
    serialises callers and is not modelled. *)

Inductive fcontent : Type := FCorrupt | FJson (j : json).

(** A response body: empty, not JSON, or JSON. *)
Inductive rbody : Type := BEmpty | BText | BJson (j : json).

(** A call to [requests.post]: a transport exception or a response. *)
Inductive prov_resp : Type :=
  | PNetErr
  | PResp (status_code : Z) (body : rbody).

Inductive grant : Type :=
  | PasswordGrant
  | RefreshGrant (refresh : json).

Record auth_st : Type := mkAuthSt {
  token : option AuthToken;
  token_file : option fcontent;
  legacy_file : option fcontent;
  lock_busy : bool;
  provider : nat -> prov_resp;
  sent : list grant;
  clk : clock;
  logs : list string }.

Definition set_token (t : option AuthToken) (s : auth_st) : auth_st :=
  {| token := t; token_file := token_file s; legacy_file := legacy_file s;
     lock_busy := lock_busy s; provider := provider s; sent := sent s;
     clk := clk s; logs := logs s |}.
Definition set_token_file (f : option fcontent) (s : auth_st) : auth_st :=
  {| token := token s; token_file := f; legacy_file := legacy_file s;
     lock_busy := lock_busy s; provider := provider s; sent := sent s;
     clk := clk s; logs := logs s |}.
Definition set_legacy_file (f : option fcontent) (s : auth_st) : auth_st :=
  {| token := token s; token_file := token_file s; legacy_file := f;
     lock_busy := lock_busy s; provider := provider s; sent := sent s;
     clk := clk s; logs := logs s |}.
Definition add_sent (g : grant) (s : auth_st) : auth_st :=
  {| token := token s; token_file := token_file s; legacy_file := legacy_file s;
     lock_busy := lock_busy s; provider := provider s; sent := sent s ++ [g];
     clk := clk s; logs := logs s |}.
Definition add_log (m : string) (s : auth_st) : auth_st :=
  {| token := token s; token_file := token_file s; legacy_file := legacy_file s;
     lock_busy := lock_busy s; provider := provider s; sent := sent s;
     clk := clk s; logs := logs s ++ [m] |}.

Definition log (m : string) : M auth_st unit := modify (add_log m).

Definition TOKEN_EXPIRY_MARGIN : Q := inject_Z 100.

(** [response.json()] *)
Definition resp_json (b : rbody) : result json :=
  match b with BJson j => Ok j | _ => Err JSONDecodeError end.

(** [json.load(f)] *)
Definition json_load (c : fcontent) : result json :=
  match c with FJson j => Ok j | FCorrupt => Err JSONDecodeError end.

(** [requests.post(URLS["auth"], json=payload, ...)]: the request is sent
    whatever the answer. *)
Definition post_auth (g : grant) : M auth_st prov_resp :=
  fun s => (Ok (provider s (length (sent s))), add_sent g s).

(** [_parse_auth_response] *)
Definition _parse_auth_response (c : clock) (response : json) : result AuthToken :=
  ar <-- py_getitem response "AuthenticationResult" ;;
  expires_in <-- py_getitem ar "ExpiresIn" ;;
  now <-- datetime_now c ;;
  secs <-- (n <-- py_number expires_in ;; Ok (Qminus n TOKEN_EXPIRY_MARGIN)) ;;
  ea <-- dt_add_seconds now secs ;;
  at_ <-- py_getitem ar "AccessToken" ;;
  it <-- py_getitem ar "IdToken" ;;
  rt <-- py_getitem ar "RefreshToken" ;;
  tt <-- py_getitem ar "TokenType" ;;
  Ok (mkAuthToken at_ it rt tt ea).

(** [_save_token]: only [filelock.Timeout] is caught. *)
Definition _save_token (t : AuthToken) : M auth_st unit :=
  try_except
    (s <- get ;;
     if lock_busy s then raise FileLockTimeout
     else modify (set_token_file (Some (FJson (AuthToken_to_dict t)))))
    [CTimeout]
    (fun _ => log "Could not acquire lock to save token").

(** [_authenticate_new] *)
Definition _authenticate_new : M auth_st AuthToken :=
  r <- post_auth PasswordGrant ;;
  match r with
  | PNetErr => raise NetworkError
  | PResp code body =>
      if code =? 200 then
        result <- lift (resp_json body) ;;
        s <- get ;;
        t <- lift (_parse_auth_response (clk s) result) ;;
        modify (set_token (Some t)) ;;;
        _save_token t ;;;
        ret t
      else if code =? 400 then
        error_data <- lift (resp_json body) ;;
        error_type <- lift (py_get error_data "__type" (JStr "")) ;;
        bad_credentials <- lift (py_contains "NotAuthorizedException" error_type) ;;
        if bad_credentials then raise InvalidCredentialsError
        else (lift (py_get error_data "message" (JStr "Unknown error")) ;;;
              raise AuthenticationError)
      else raise AuthenticationError
  end.

(** [_refresh_token] *)
Definition _refresh_token : M auth_st AuthToken :=
  s <- get ;;
  match token s with
  | None => raise TokenExpiredError
  | Some old =>
      if negb (truthy (refresh_token old)) then raise TokenExpiredError
      else
        r <- post_auth (RefreshGrant (refresh_token old)) ;;
        match r with
        | PNetErr => raise NetworkError
        | PResp code body =>
            if code =? 200 then
              result <- lift (resp_json body) ;;
              ar <- lift (py_getitem result "AuthenticationResult") ;;
              has_refresh <- lift (py_contains "RefreshToken" ar) ;;
              result' <- (if has_refresh then ret result
                          else (ar' <- lift (py_setitem ar "RefreshToken" (refresh_token old)) ;;
                                lift (py_setitem result "AuthenticationResult" ar'))) ;;
              s' <- get ;;
              t <- lift (_parse_auth_response (clk s') result') ;;
              modify (set_token (Some t)) ;;;
              _save_token t ;;;
              ret t
            else if (code =? 400) || (code =? 401) then
              log "Refresh token expired, performing new authentication" ;;;
              _authenticate_new
            else raise AuthenticationError
        end
  end.

(** [isinstance(v, (int, float))] *)
Definition is_int_or_float (v : json) : bool :=
  match v with JInt _ | JFloat _ | JBool _ => true | _ => false end.

(** [_migrate_legacy_token] *)
Definition _migrate_legacy_token (data : json) : M auth_st (option AuthToken) :=
  s <- get ;;
  try_except
    (auth_result <- lift (py_get data "AuthenticationResult" (JObj [])) ;;
     has_time <- lift (py_contains "expiry_time" data) ;;
     expires_at <-
       (if has_time then
          (v <- lift (py_getitem data "expiry_time") ;; lift (fromtimestamp (clk s) v))
        else
          (has_date <- lift (py_contains "expiry_date" data) ;;
           if has_date then
             (v <- lift (py_getitem data "expiry_date") ;;
              if is_int_or_float v then lift (fromtimestamp (clk s) v)
              else lift (datetime_now (clk s)))
           else lift (datetime_now (clk s)))) ;;
     at_ <- lift (py_get auth_result "AccessToken" (JStr "")) ;;
     it <- lift (py_get auth_result "IdToken" (JStr "")) ;;
     rt <- lift (py_get auth_result "RefreshToken" (JStr "")) ;;
     tt <- lift (py_get auth_result "TokenType" (JStr "Bearer")) ;;
     ret (Some (mkAuthToken at_ it rt tt expires_at)))
    [CKeyError; CValueError]
    (fun _ => log "Failed to migrate legacy token" ;;; ret None).

(** [_load_token] *)
Definition _load_token : M auth_st (option AuthToken) :=
  s <- get ;;
  match token_file s with
  | Some content =>
      try_except
        (data <- lift (json_load content) ;;
         t <- lift (AuthToken_from_dict data) ;;
         ret (Some t))
        [CJSONDecodeError; CKeyError; CValueError]
        (fun _ => log "Could not parse token file" ;;; ret None)
  | None =>
      match legacy_file s with
      | Some content =>
          try_except
            (data <- lift (json_load content) ;;
             tok <- _migrate_legacy_token data ;;
             match tok with
             | Some t =>
                 _save_token t ;;;
                 modify (set_legacy_file None) ;;;
                 ret (Some t)
             | None => ret None
             end)
            [CException]
            (fun _ => log "Could not migrate legacy token" ;;; ret None)
      | None => ret None
      end
  end.

(** [authenticate(force_refresh)]; inside the [try], [Some t] is a return
    and [None] falls through to [_authenticate_new]. *)
Definition authenticate (force_refresh : bool) : M auth_st AuthToken :=
  s <- get ;;
  cached <- (if force_refresh then ret None
             else match token s with
                  | Some t => e <- lift (is_expired (clk s) t) ;; ret (if e then None else Some t)
                  | None => ret None
                  end) ;;
  match cached with
  | Some t => ret t
  | None =>
      returned <-
        (if force_refresh then ret None
         else try_except
                (tok <- _load_token ;;
                 modify (set_token tok) ;;;
                 match tok with
                 | Some t =>
                     s' <- get ;;
                     e <- lift (is_expired (clk s') t) ;;
                     if e then (t' <- _refresh_token ;; ret (Some t')) else ret (Some t)
                 | None => ret None
                 end)
                [CException]
                (fun _ => log "Could not load token" ;;; ret None)) ;;
      match returned with
      | Some t => ret t
      | None => _authenticate_new
      end
  end.

(** [get_auth_headers]: the token type and id token of the
    ["Authorization"] header. *)
Definition get_auth_headers : M auth_st (json * json) :=
  t <- authenticate false ;; ret (token_type t, id_token t).


(* ------------------------------------------------------------------ *)
(** ** API client ([client.py], [DroneMobileClient])

    The client's state: its token manager, the API server (its answer to the
    n-th HTTP request), the trace of HTTP requests and forced refreshes, and
    the [_vehicles] registry. Each operation re-invokes itself after a 401;
    [depth] is the room left on the interpreter's stack for such nested
    calls, whose exhaustion raises [RecursionError]. *)

Inductive http_resp : Type :=
  | HExc
  | HResp (status_code : Z) (body : rbody).

Inductive request : Type :=
  | ReqVehicles
  | ReqStatus (vehicle_id : string)
  | ReqCommand (device_key command device_type : string).

Inductive event : Type :=
  | EvHttp (r : request)
  | EvForceRefresh.

Record client_st : Type := mkClientSt {
  auth : auth_st;
  api : nat -> http_resp;
  trace : list event;
  vehicles : list (json * VehicleInfo) }.

Definition http_calls (tr : list event) : nat :=
  length (filter (fun e => match e with EvHttp _ => true | _ => false end) tr).

Definition forced_refreshes (tr : list event) : nat :=
  length (filter (fun e => match e with EvForceRefresh => true | _ => false end) tr).

Definition add_event (e : event) (s : client_st) : client_st :=
  mkClientSt (auth s) (api s) (trace s ++ [e]) (vehicles s).

(** Run a token-manager method on the client's manager. *)
Definition lift_auth {A} (m : M auth_st A) : M client_st A :=
  fun s => let '(r, a') := m (auth s) in (r, mkClientSt a' (api s) (trace s) (vehicles s)).

(** [self._session.get/post(...)] *)
Definition http (r : request) : M client_st http_resp :=
  fun s => (Ok (api s (http_calls (trace s))), add_event (EvHttp r) s).

(** [self.auth.authenticate(force_refresh=True)] *)
Definition force_refresh : M client_st unit :=
  modify (add_event EvForceRefresh) ;;; lift_auth (authenticate true) ;;; ret tt.

(** [response.json() if response.content else None] *)
Definition error_body (b : rbody) : result json :=
  match b with BEmpty => Ok JNull | _ => resp_json b end.

(** [for x in v] *)
Definition py_iter (v : json) : result (list json) :=
  match v with
  | JArr l => Ok l
  | JObj kvs => Ok (map (fun kv => JStr (fst kv)) kvs)
  | JStr s => Ok (map (fun c => JStr (String c EmptyString)) (list_ascii_of_string s))
  | _ => Err TypeError
  end.

Definition hashable (v : json) : bool :=
  match v with JArr _ | JObj _ => false | _ => true end.

Fixpoint registry_set (k : json) (v : VehicleInfo) (reg : list (json * VehicleInfo))
  : list (json * VehicleInfo) :=
  match reg with
  | [] => [(k, v)]
  | (k', v') :: r => if json_eqb k k' then (k', v) :: r else (k', v') :: registry_set k v r
  end.

(** The loop of [get_vehicles] over the results. *)
Fixpoint register_vehicles (items : list json) : M client_st (list VehicleInfo) :=
  match items with
  | [] => ret []
  | vd :: rest =>
      info <- lift (VehicleInfo_from_dict vd) ;;
      (if hashable (vi_vehicle_id info) then
         modify (fun s => mkClientSt (auth s) (api s) (trace s)
                                     (registry_set (vi_vehicle_id info) info (vehicles s)))
       else raise TypeError) ;;;
      infos <- register_vehicles rest ;;
      ret (info :: infos)
  end.

(** The 200 branch of [get_vehicles]. *)
Definition vehicles_from_response (body : rbody) : M client_st (list VehicleInfo) :=
  j <- lift (resp_json body) ;;
  results <- lift (py_get j "results" (JArr [])) ;;
  items <- lift (py_iter results) ;;
  register_vehicles items.

(** [get_vehicles] *)
Fixpoint get_vehicles (depth : nat) : M client_st (list VehicleInfo) :=
  lift_auth get_auth_headers ;;;
  r <- http ReqVehicles ;;
  match r with
  | HExc => raise NetworkError
  | HResp code body =>
      if code =? 200 then vehicles_from_response body
      else if code =? 401 then
        force_refresh ;;;
        match depth with O => raise RecursionError | S d => get_vehicles d end
      else if code =? 429 then lift (resp_json body) ;;; raise (RateLimitError code)
      else lift (error_body body) ;;; raise (APIError code)
  end.

(** The 200 branch of [get_vehicle_status]. *)
Definition status_from_response (body : rbody) : M client_st VehicleStatus :=
  data <- lift (resp_json body) ;; lift (VehicleStatus_from_dict data).

(** [get_vehicle_status] *)
Fixpoint get_vehicle_status (depth : nat) (vehicle_id : string) : M client_st VehicleStatus :=
  lift_auth get_auth_headers ;;;
  r <- http (ReqStatus vehicle_id) ;;
  match r with
  | HExc => raise NetworkError
  | HResp code body =>
      if code =? 200 then status_from_response body
      else if code =? 401 then
        force_refresh ;;;
        match depth with O => raise RecursionError | S d => get_vehicle_status d vehicle_id end
      else if code =? 404 then raise VehicleNotFoundError
      else if code =? 429 then lift (resp_json body) ;;; raise (RateLimitError code)
      else lift (error_body body) ;;; raise (APIError code)
  end.

(** [AVAILABLE_COMMANDS] ([const.py]) *)
Definition AVAILABLE_COMMANDS : list string :=
  ["DEVICE_STATUS"; "REMOTE_START"; "REMOTE_STOP"; "ARM"; "DISARM"; "TRUNK";
   "PANIC_ON"; "PANIC_OFF"; "REMOTE_AUX1"; "REMOTE_AUX2"; "LOCATION"].

Definition DEVICE_TYPE_VEHICLE : string := "1".
Definition DEVICE_TYPE_CONTROLLER : string := "2".

Definition is_available_command (command : string) : bool :=
  existsb (String.eqb command) AVAILABLE_COMMANDS.

(** The 200 branch of [send_command]. *)
Definition command_from_response (body : rbody) (command device_key : string)
  : M client_st CommandResponse :=
  j <- lift (resp_json body) ;;
  data <- lift (py_get j "parsed" (JObj [])) ;;
  lift (CommandResponse_from_dict data command device_key).

(** [send_command] *)
Fixpoint send_command (depth : nat) (device_key command device_type : string)
  : M client_st CommandResponse :=
  if negb (is_available_command command) then raise InvalidCommandError
  else
    lift_auth get_auth_headers ;;;
    r <- http (ReqCommand device_key command device_type) ;;
    match r with
    | HExc => raise NetworkError
    | HResp code body =>
        if code =? 200 then command_from_response body command device_key
        else if code =? 401 then
          force_refresh ;;;
          match depth with
          | O => raise RecursionError
          | S d => send_command d device_key command device_type
          end
        else if code =? 424 then
          j <- lift (resp_json body) ;;
          error_data <- lift (py_get j "parsed" (JObj [])) ;;
          lift (py_get error_data "detail" (JStr "Command failed")) ;;;
          raise (CommandFailedError code)
        else if code =? 429 then lift (resp_json body) ;;; raise (RateLimitError code)
        else lift (error_body body) ;;; raise (APIError code)
    end.

(** The three operations of the gateway, with their results. *)
Inductive operation : Type :=
  | OpGetVehicles
  | OpGetVehicleStatus (vehicle_id : string)
  | OpSendCommand (device_key command device_type : string).

Inductive op_value : Type :=
  | VVehicles (l : list VehicleInfo)
  | VStatus (st : VehicleStatus)
  | VCommand (cr : CommandResponse).

Definition fmap_M {S A B} (f : A -> B) (m : M S A) : M S B := x <- m ;; ret (f x).

Definition on_200 (op : operation) (body : rbody) : M client_st op_value :=
  match op with
  | OpGetVehicles => fmap_M VVehicles (vehicles_from_response body)
  | OpGetVehicleStatus _ => fmap_M VStatus (status_from_response body)
  | OpSendCommand dk c _ => fmap_M VCommand (command_from_response body c dk)
  end.

Definition op_request (op : operation) : request :=
  match op with
  | OpGetVehicles => ReqVehicles
  | OpGetVehicleStatus vid => ReqStatus vid
  | OpSendCommand dk c dt => ReqCommand dk c dt
  end.

Definition run_op (depth : nat) (op : operation) : M client_st op_value :=
  match op with
  | OpGetVehicles => fmap_M VVehicles (get_vehicles depth)
  | OpGetVehicleStatus vid => fmap_M VStatus (get_vehicle_status depth vid)
  | OpSendCommand dk c dt => fmap_M VCommand (send_command depth dk c dt)
  end.

(** [k in self._vehicles] and [self._vehicles[k]]: the entry whose key
    equals [k]. *)
Fixpoint registry_get (k : json) (reg : list (json * VehicleInfo)) : option VehicleInfo :=
  match reg with
  | [] => None
  | (k', v) :: r => if json_eqb k k' then Some v else registry_get k r
  end.

(** The loop of [get_vehicle] over the fetched vehicles. *)
Fixpoint find_vehicle (vehicle_id : string) (l : list VehicleInfo) : option VehicleInfo :=
  match l with
  | [] => None
  | i :: r => if json_eqb (vi_vehicle_id i) (JStr vehicle_id) then Some i
              else find_vehicle vehicle_id r
  end.

(** [get_vehicle]; a [Vehicle] is represented by its [info]. *)
Definition get_vehicle (depth : nat) (vehicle_id : string) : M client_st VehicleInfo :=
  s <- get ;;
  match registry_get (JStr vehicle_id) (vehicles s) with
  | Some v => ret v
  | None =>
      vs <- get_vehicles depth ;;
      match find_vehicle vehicle_id vs with
      | Some v => ret v
      | None => raise VehicleNotFoundError
      end
  end.

(** [poll_device_status] *)
Definition poll_device_status (depth : nat) (device_key : string) : M client_st CommandResponse :=
  send_command depth device_key "DEVICE_STATUS" DEVICE_TYPE_CONTROLLER.

(* ------------------------------------------------------------------ *)
(** ** Vehicles ([vehicle.py], [Vehicle])

    A vehicle object holds its identifier and device key (the strings the
    API reports) and its cached status. Its methods run on the state of the
    client and of the vehicle object. *)

Record vehicle_obj : Type := mkVehicle {
  veh_vehicle_id : string; veh_device_key : string; cached_status : option VehicleStatus }.

(** A client method called from a vehicle method. *)
Definition on_client {A} (m : M client_st A) : M (client_st * vehicle_obj) A :=
  fun p => let '(r, c') := m (fst p) in (r, (c', snd p)).

(** [Vehicle.get_status(use_cache)]: a [VehicleStatus] instance is always
    truthy. *)
Definition Vehicle_get_status (depth : nat) (use_cache : bool)
  : M (client_st * vehicle_obj) VehicleStatus :=
  p <- get ;;
  match (if use_cache then cached_status (snd p) else None) with
  | Some st => ret st
  | None =>
      st <- on_client (get_vehicle_status depth (veh_vehicle_id (snd p))) ;;
      modify (fun p => (fst p, mkVehicle (veh_vehicle_id (snd p)) (veh_device_key (snd p))
                                         (Some st))) ;;;
      ret st
  end.

(** [Vehicle.poll_status] *)
Definition Vehicle_poll_status (depth : nat) : M (client_st * vehicle_obj) CommandResponse :=
  p <- get ;; on_client (poll_device_status depth (veh_device_key (snd p))).

(** The command methods of [Vehicle] and the command each one sends. *)
Inductive vehicle_action : Type :=
  | VStart | VStop | VLock | VUnlock | VTrunk | VPanicOn | VPanicOff
  | VAux1 | VAux2 | VGetLocation.

Definition action_command (a : vehicle_action) : string :=
  match a with
  | VStart => "REMOTE_START" | VStop => "REMOTE_STOP"
  | VLock => "ARM" | VUnlock => "DISARM" | VTrunk => "TRUNK"
  | VPanicOn => "PANIC_ON" | VPanicOff => "PANIC_OFF"
  | VAux1 => "REMOTE_AUX1" | VAux2 => "REMOTE_AUX2"
  | VGetLocation => "LOCATION"
  end.

(** [Vehicle.start], [Vehicle.stop], ..., [Vehicle.get_location]: the
    command with the default device type. *)
Definition Vehicle_action (depth : nat) (a : vehicle_action)
  : M (client_st * vehicle_obj) CommandResponse :=
  p <- get ;;
  on_client (send_command depth (veh_device_key (snd p)) (action_command a) DEVICE_TYPE_VEHICLE).

(* ------------------------------------------------------------------ *)
(** ** Sample configurations *)

(** 14 November 2023, 22:13:20 UTC, on a host whose local time is UTC. *)
Definition clk0 : clock := mkclock (1700000000 * 1000000) 0.

Definition auth_result_ok : json :=
  JObj [("AccessToken", JStr "a1"); ("IdToken", JStr "i1"); ("RefreshToken", JStr "r1");
        ("TokenType", JStr "Bearer"); ("ExpiresIn", JInt 3600)].
Definition auth_ok_body : json := JObj [("AuthenticationResult", auth_result_ok)].
Definition bad_credentials_body : json := JObj [("__type", JStr "NotAuthorizedException")].

(** A token file written by [_save_token] for a token expired in 2020. *)
Definition expired_token_file : json :=
  JObj [("access_token", JStr "a0"); ("id_token", JStr "i0"); ("refresh_token", JStr "r0");
        ("token_type", JStr "Bearer"); ("expires_at", JStr "2020-01-01T00:00:00")].

(** A legacy token file expiring at the epoch instant [t]. *)
Definition legacy_token_file (t : json) : json :=
  JObj [("AuthenticationResult",
         JObj [("AccessToken", JStr "la"); ("IdToken", JStr "li");
               ("RefreshToken", JStr "lr"); ("TokenType", JStr "Bearer")]);
        ("expiry_time", t)].

(** An identity provider that always answers with [r]. *)
Definition provider_const (r : prov_resp) : nat -> prov_resp := fun _ => r.

(** An expired token on disk, and a provider rejecting every request as
    [NotAuthorizedException]. *)
Definition auth_refresh_rejected : auth_st :=
  mkAuthSt None (Some (FJson expired_token_file)) None false
           (provider_const (PResp 400 (BJson bad_credentials_body))) [] clk0 [].

(** Both token files on disk, the legacy one expiring in 2027. *)
Definition auth_with_legacy : auth_st :=
  mkAuthSt None (Some (FJson expired_token_file))
           (Some (FJson (legacy_token_file (JInt 1800000000)))) false
           (provider_const (PResp 200 (BJson auth_ok_body))) [] clk0 [].


(** No token anywhere, and a file lock held by another process. *)
Definition auth_lock_busy : auth_st :=
  mkAuthSt None None None true (provider_const (PResp 200 (BJson auth_ok_body))) [] clk0 [].

(** A token valid until 2030, held in memory. *)
Definition token_2030 : AuthToken :=
  mkAuthToken (JStr "a0") (JStr "i0") (JStr "r0") (JStr "Bearer")
              (mkdt 2030 1 1 0 0 0 0 None).

Definition auth_logged_in : auth_st :=
  mkAuthSt (Some token_2030) None None false
           (provider_const (PResp 200 (BJson auth_ok_body))) [] clk0 [].

(** The token of 2030 in memory, and a provider whose refresh answer has no
    [RefreshToken]. *)
Definition auth_refresh_no_rt : auth_st :=
  mkAuthSt (Some token_2030) None None false
    (provider_const (PResp 200 (BJson (JObj [("AuthenticationResult",
       JObj [("AccessToken", JStr "a2"); ("IdToken", JStr "i2");
             ("TokenType", JStr "Bearer"); ("ExpiresIn", JInt 3600)])]))))
    [] clk0 [].

(** A token file whose [expires_at] is a number, not a string. *)
Definition auth_bad_expiry : auth_st :=
  mkAuthSt None
    (Some (FJson (JObj [("access_token", JStr "a0"); ("id_token", JStr "i0");
                        ("refresh_token", JStr "r0"); ("token_type", JStr "Bearer");
                        ("expires_at", JInt 1800000000)])))
    None false (provider_const (PResp 200 (BJson auth_ok_body))) [] clk0 [].

Definition status_body : json :=
  JObj [("vehicle_id", JStr "v1");
        ("last_known_state", JObj [("controller", JObj [("engine_on", JBool true)])])].

(** An API server answering 401 to every request. *)
Definition client_always_401 : client_st :=
  mkClientSt auth_logged_in (fun _ => HResp 401 BEmpty) [] [].

(** An API server answering 401 to the first request and 200 afterwards. *)
Definition client_401_once : client_st :=
  mkClientSt auth_logged_in
             (fun n => if Nat.eqb n 0 then HResp 401 BEmpty else HResp 200 (BJson status_body))
             [] [].

(** A token manager in which every [authenticate] succeeds without touching
    the API: the provider always grants a token that is not expired, and the
    token held in memory is not expired. *)
Definition auth_stable (a : auth_st) : Prop :=
  exists body t t0,
    (forall n, provider a n = PResp 200 (BJson body)) /\
    _parse_auth_response (clk a) body = Ok t /\ is_expired (clk a) t = Ok false /\
    token a = Some t0 /\ is_expired (clk a) t0 = Ok false.

(** The check [send_command] does before any request. *)
Definition op_valid (op : operation) : bool :=
  match op with OpSendCommand _ c _ => is_available_command c | _ => true end.

(** [d.get(k, default)] on a dict. *)
Definition dict_get (kvs : list (string * json)) (k : string) (default : json) : json :=
  match assoc k kvs with Some x => x | None => default end.

(** The state after a 401 and the forced refresh that follows it. *)
Definition after_refresh (op : operation) (a' : auth_st) (s : client_st) : client_st :=
  mkClientSt a' (api s) ((trace s ++ [EvHttp (op_request op)]) ++ [EvForceRefresh])
             (vehicles s).

(** Only a legacy token file, expiring at the epoch second 1800000000. *)
Definition legacy_epoch_kvs : list (string * json) :=
  match legacy_token_file (JInt 1800000000) with JObj kvs => kvs | _ => [] end.

Definition auth_legacy_only : auth_st :=
  mkAuthSt None None (Some (FJson (JObj legacy_epoch_kvs))) false
           (provider_const (PResp 200 (BJson auth_ok_body))) [] clk0 [].

(** No character of the string is a sign. *)
Fixpoint no_sign (s : string) : bool :=
  match s with
  | EmptyString => true
  | String c s' => negb (Ascii.eqb c "+"%char || Ascii.eqb c "-"%char) && no_sign s'
  end.


(** The last vehicle of a list whose [vehicle_id] is the string [vehicle_id]:
    the one the registry keeps after [get_vehicles]. *)
Fixpoint last_with (vehicle_id : string) (l : list VehicleInfo) : option VehicleInfo :=
  match l with
  | [] => None
  | i :: r => match last_with vehicle_id r with
              | Some j => Some j
              | None => if json_eqb (vi_vehicle_id i) (JStr vehicle_id) then Some i else None
              end
  end.

(** A token expired in 2020 without a refresh token, saved in the token file. *)
Definition token_2020_no_rt : AuthToken :=
  mkAuthToken (JStr "a0") (JStr "i0") (JStr "") (JStr "Bearer") (mkdt 2020 1 1 0 0 0 0 None).

Definition auth_expired_no_rt : auth_st :=
  mkAuthSt None (Some (FJson (AuthToken_to_dict token_2020_no_rt))) None false
           (provider_const (PResp 200 (BJson auth_ok_body))) [] clk0 [].

(** Only a legacy token file, with neither [expiry_time] nor [expiry_date]. *)
Definition legacy_no_expiry_kvs : list (string * json) :=
  [("AuthenticationResult",
    JObj [("AccessToken", JStr "la"); ("IdToken", JStr "li");
          ("RefreshToken", JStr "lr"); ("TokenType", JStr "Bearer")])].

Definition auth_legacy_no_expiry : auth_st :=
  mkAuthSt None None (Some (FJson (JObj legacy_no_expiry_kvs))) false
           (provider_const (PResp 200 (BJson auth_ok_body))) [] clk0 [].

(** Only a legacy token file whose [expiry_time] is a string. *)
Definition legacy_str_expiry_kvs : list (string * json) :=
  match legacy_token_file (JStr "1800000000") with JObj kvs => kvs | _ => [] end.

Definition auth_legacy_str_expiry : auth_st :=
  mkAuthSt None None (Some (FJson (JObj legacy_str_expiry_kvs))) false
           (provider_const (PResp 200 (BJson auth_ok_body))) [] clk0 [].

(** An API server giving the same answer to every request, for a client
    logged in with the token of 2030 and the given registry. *)
Definition client_const (r : http_resp) (reg : list (json * VehicleInfo)) : client_st :=
  mkClientSt auth_logged_in (fun _ => r) [] reg.

(** A vehicle list naming the vehicle [v1] twice. *)
Definition two_v1_body : json :=
  JObj [("results", JArr [JObj [("vehicle_id", JStr "v1"); ("name", JStr "first")];
                          JObj [("id", JStr "v1"); ("name", JStr "second")]])].

Definition info_v1 : VehicleInfo :=
  mkVehicleInfo (JStr "v1") (JStr "dk1") (JStr "Car") JNull JNull None JNull JNull JNull.

Definition status_v1 : VehicleStatus :=
  mkVehicleStatus (JStr "v1") (JStr "dk1") (JBool true) (JBool false) JNull JNull JNull JNull
                  JNull JNull None None status_body.

(* ================================================================== *)
(** * Proofs *)

(* ------------------------------------------------------------------ *)
(** ** Which exceptions a computation may raise *)

Definition result_only {A} (P : exn -> Prop) (r : result A) : Prop :=
  match r with Ok _ => True | Err e => P e end.

Definition raises_only {S A} (P : exn -> Prop) (m : M S A) : Prop :=
  forall s, result_only P (fst (m s)).

(** The exceptions the token manager can let escape. *)
Definition auth_exn (e : exn) : bool :=
  match e with
  | KeyError | ValueError | JSONDecodeError | TypeError | AttributeError
  | OverflowError | NetworkError | AuthenticationError | TokenExpiredError
  | InvalidCredentialsError => true
  | _ => false
  end.

Definition auth_P (e : exn) : Prop := auth_exn e = true.

Lemma result_only_weaken {A} (P Q : exn -> Prop) (r : result A) :
  result_only P r -> (forall e, P e -> Q e) -> result_only Q r.
Proof. destruct r; simpl; auto. Qed.

Lemma ro_rbind {A B} P (r : result A) (k : A -> result B) :
  result_only P r -> (forall a, result_only P (k a)) -> result_only P (rbind r k).
Proof. destruct r; simpl; auto. Qed.

Lemma ro_ret {S A} P (a : A) : @raises_only S A P (ret a).
Proof. intros s; exact I. Qed.

Lemma ro_raise {S A} (P : exn -> Prop) e : P e -> @raises_only S A P (raise e).
Proof. intros H s; exact H. Qed.

Lemma ro_lift {S A} P (r : result A) : result_only P r -> @raises_only S A P (lift r).
Proof. intros H s; exact H. Qed.

Lemma ro_get {S} P : @raises_only S S P get.
Proof. intros s; exact I. Qed.

Lemma ro_modify {S} P f : @raises_only S unit P (modify f).
Proof. intros s; exact I. Qed.

Lemma ro_bind {S A B} P (m : M S A) (k : A -> M S B) :
  raises_only P m -> (forall a, raises_only P (k a)) -> raises_only P (bind m k).
Proof.
  intros Hm Hk s. unfold bind. specialize (Hm s).
  destruct (m s) as [[a|e] s']; simpl in *; [apply Hk | exact Hm].
Qed.

Lemma ro_try {S A} P (m : M S A) cs h :
  raises_only (fun e => catches cs e = false -> P e) m ->
  (forall e, raises_only P (h e)) -> raises_only P (try_except m cs h).
Proof.
  intros Hm Hh s. unfold try_except. specialize (Hm s).
  destruct (m s) as [[a|e] s']; simpl in *; [exact I |].
  destruct (catches cs e) eqn:C; [apply Hh | simpl; auto].
Qed.

Lemma ro_post_auth P g : raises_only P (post_auth g).
Proof. intros s; exact I. Qed.

(** Symbolic evaluation of a pure function down to its [Ok] and [Err]
    leaves. *)
Ltac pure_leaves :=
  repeat (simpl; match goal with
                 | |- context [match ?x with _ => _ end] => destruct x
                 | |- context [if ?b then _ else _] => destruct b
                 end);
  simpl; first [exact I | reflexivity].

Create HintDb pure_exns.

Lemma py_get_exns v k d : result_only auth_P (py_get v k d).
Proof. unfold py_get, auth_P; pure_leaves. Qed.
Lemma py_getitem_exns v k : result_only auth_P (py_getitem v k).
Proof. unfold py_getitem, auth_P; pure_leaves. Qed.
Lemma py_setitem_exns v k x : result_only auth_P (py_setitem v k x).
Proof. unfold py_setitem, auth_P; pure_leaves. Qed.
Lemma py_contains_exns k v : result_only auth_P (py_contains k v).
Proof. unfold py_contains, auth_P; pure_leaves. Qed.
Lemma py_number_exns v : result_only auth_P (py_number v).
Proof. unfold py_number, auth_P; pure_leaves. Qed.
Lemma resp_json_exns b : result_only auth_P (resp_json b).
Proof. unfold resp_json, auth_P; pure_leaves. Qed.
Lemma json_load_exns c : result_only auth_P (json_load c).
Proof. unfold json_load, auth_P; pure_leaves. Qed.
Lemma datetime_now_exns c : result_only auth_P (datetime_now c).
Proof. unfold datetime_now, auth_P; pure_leaves. Qed.
Lemma dt_ge_exns a b : result_only auth_P (dt_ge a b).
Proof. unfold dt_ge, auth_P; pure_leaves. Qed.
Lemma dt_add_seconds_exns d q : result_only auth_P (dt_add_seconds d q).
Proof. unfold dt_add_seconds, auth_P; pure_leaves. Qed.
Lemma fromtimestamp_exns c v : result_only auth_P (fromtimestamp c v).
Proof.
  unfold fromtimestamp. apply ro_rbind; [apply py_number_exns | intros a].
  unfold auth_P; pure_leaves.
Qed.
Lemma fromisoformat_exns v : result_only auth_P (fromisoformat v).
Proof. unfold fromisoformat, auth_P; pure_leaves. Qed.

#[export] Hint Resolve py_get_exns py_getitem_exns py_setitem_exns py_contains_exns
  py_number_exns resp_json_exns json_load_exns datetime_now_exns dt_ge_exns
  dt_add_seconds_exns fromtimestamp_exns fromisoformat_exns ro_rbind : pure_exns.

Ltac pure_chain :=
  repeat match goal with
         | |- result_only _ (rbind _ _) => apply ro_rbind; [ | intro ]
         | |- result_only _ (match ?x with _ => _ end) => destruct x
         end;
  first [ exact I | reflexivity | solve [eauto with pure_exns] ].

Lemma is_expired_exns c t : result_only auth_P (is_expired c t).
Proof. unfold is_expired; pure_chain. Qed.
Lemma parse_auth_response_exns c r : result_only auth_P (_parse_auth_response c r).
Proof. unfold _parse_auth_response; pure_chain. Qed.
Lemma AuthToken_from_dict_exns d : result_only auth_P (AuthToken_from_dict d).
Proof. unfold AuthToken_from_dict; pure_chain. Qed.

#[export] Hint Resolve is_expired_exns parse_auth_response_exns AuthToken_from_dict_exns
  : pure_exns.

Lemma raises_only_weaken {S A} (P Q : exn -> Prop) (m : M S A) :
  raises_only P m -> (forall e, P e -> Q e) -> raises_only Q m.
Proof. intros Hm HPQ s. eapply result_only_weaken; eauto. Qed.

Create HintDb auth_exns.

Lemma ro_lift_auth {A} P (m : M auth_st A) : raises_only P m -> raises_only P (lift_auth m).
Proof. intros H s. unfold lift_auth. specialize (H (auth s)). destruct (m (auth s)); exact H. Qed.

Lemma ro_http P r : raises_only P (http r).
Proof. intros s; exact I. Qed.

Ltac ro_leaf :=
  unfold auth_P; simpl;
  first [ exact I | reflexivity | (intros; reflexivity) | discriminate
        | (let H := fresh in intro H; discriminate H) ].

Ltac ro_weak :=
  intros ?e ?He; unfold auth_P in *;
  first [ solve [auto] | destruct e; simpl in *; congruence ].

Ltac ro :=
  repeat match goal with
         | |- raises_only _ (bind _ _) => apply ro_bind; [ | intro ]
         | |- raises_only _ (try_except _ _ _) => apply ro_try; [ | intro ]
         | |- raises_only _ (ret _) => apply ro_ret
         | |- raises_only _ (raise _) => apply ro_raise; ro_leaf
         | |- raises_only _ (lift _) =>
             apply ro_lift; eapply result_only_weaken;
             [ solve [eauto with pure_exns] | ro_weak ]
         | |- raises_only _ get => apply ro_get
         | |- raises_only _ (modify _) => apply ro_modify
         | |- raises_only _ (log _) => apply ro_modify
         | |- raises_only _ (post_auth _) => apply ro_post_auth
         | |- raises_only _ (http _) => apply ro_http
         | |- raises_only _ force_refresh => unfold force_refresh
         | |- raises_only _ (command_from_response _ _ _) => unfold command_from_response
         | |- raises_only _ (lift_auth _) =>
             apply ro_lift_auth; eapply raises_only_weaken;
             [ solve [eauto with auth_exns] | ro_weak ]
         | |- raises_only _ (match ?x with _ => _ end) => destruct x
         | |- raises_only _ _ =>
             eapply raises_only_weaken; [ solve [eauto with auth_exns] | ro_weak ]
         end.

Lemma save_token_exns t : raises_only auth_P (_save_token t).
Proof. unfold _save_token; ro. Qed.
#[export] Hint Resolve save_token_exns : auth_exns.

Lemma authenticate_new_exns : raises_only auth_P _authenticate_new.
Proof. unfold _authenticate_new; ro. Qed.
#[export] Hint Resolve authenticate_new_exns : auth_exns.

Lemma refresh_token_exns : raises_only auth_P _refresh_token.
Proof. unfold _refresh_token; ro. Qed.
#[export] Hint Resolve refresh_token_exns : auth_exns.

Lemma migrate_legacy_token_exns d : raises_only auth_P (_migrate_legacy_token d).
Proof. unfold _migrate_legacy_token; ro. Qed.
#[export] Hint Resolve migrate_legacy_token_exns : auth_exns.

Lemma load_token_exns : raises_only auth_P _load_token.
Proof. unfold _load_token; ro. Qed.
#[export] Hint Resolve load_token_exns : auth_exns.

Lemma authenticate_exns f : raises_only auth_P (authenticate f).
Proof. unfold authenticate; ro. Qed.
#[export] Hint Resolve authenticate_exns : auth_exns.

Lemma get_auth_headers_exns : raises_only auth_P get_auth_headers.
Proof. unfold get_auth_headers; ro. Qed.
#[export] Hint Resolve get_auth_headers_exns : auth_exns.

Lemma or_none_exns {A} (r : result A) cs :
  result_only auth_P r -> result_only auth_P (or_none r cs).
Proof. destruct r; simpl; auto. destruct (catches cs e); simpl; auto. Qed.
Lemma py_replace_char_exns v c n : result_only auth_P (py_replace_char v c n).
Proof. destruct v; simpl; first [exact I | reflexivity]. Qed.
Lemma py_float_exns v : result_only auth_P (py_float v).
Proof. unfold py_float, py_number; pure_leaves. Qed.
Lemma py_int_exns v : result_only auth_P (py_int v).
Proof. unfold py_int; pure_leaves. Qed.
Lemma py_iter_exns v : result_only auth_P (py_iter v).
Proof. unfold py_iter; pure_leaves. Qed.
Lemma error_body_exns b : result_only auth_P (error_body b).
Proof. unfold error_body, resp_json; pure_leaves. Qed.
#[export] Hint Resolve or_none_exns py_replace_char_exns py_float_exns py_int_exns
  py_iter_exns error_body_exns : pure_exns.

Lemma CommandResponse_from_dict_exns d c k :
  result_only auth_P (CommandResponse_from_dict d c k).
Proof. unfold CommandResponse_from_dict; pure_chain. Qed.
#[export] Hint Resolve CommandResponse_from_dict_exns : pure_exns.

(** With a command of the enumeration, [send_command] cannot raise
    [InvalidCommandError], at any depth. *)
Lemma send_command_valid_exns d dk c dt :
  is_available_command c = true ->
  raises_only (fun e => e <> InvalidCommandError) (send_command d dk c dt).
Proof. intros Hc. induction d as [|d IH]; simpl; rewrite Hc; simpl; ro. Qed.

(* ------------------------------------------------------------------ *)
(** ** C1: the retry after a 401 *)

(** C1 (counterexample): against a server answering 401 to every request,
    [get_vehicle_status] with room for three nested calls makes four HTTP
    requests before [RecursionError] propagates, not at most two. *)
Lemma get_vehicle_status_401_unbounded :
  fst (get_vehicle_status 3 "v1" client_always_401) = Err RecursionError /\
  http_calls (trace (snd (get_vehicle_status 3 "v1" client_always_401))) = 4%nat.
Proof. vm_compute. split; reflexivity. Qed.

(* ------------------------------------------------------------------ *)
(** ** C3: a busy file lock while saving *)

Lemma save_token_lock_busy t s :
  lock_busy s = true ->
  _save_token t s = (Ok tt, add_log "Could not acquire lock to save token" s).
Proof. intros H. unfold _save_token, try_except, bind, get. simpl. rewrite H. reflexivity. Qed.

(** C3: when the file lock cannot be acquired, [_save_token] only logs; a
    forced [authenticate] that obtains a new token from the provider then
    returns it and keeps it in memory with the token file untouched; and no
    [authenticate] call ever lets [filelock.Timeout] escape. *)
Theorem save_lock_timeout_swallowed :
  (forall t s, lock_busy s = true ->
     _save_token t s = (Ok tt, add_log "Could not acquire lock to save token" s)) /\
  (forall s body t,
     lock_busy s = true ->
     provider s (length (sent s)) = PResp 200 (BJson body) ->
     _parse_auth_response (clk s) body = Ok t ->
     authenticate true s =
     (Ok t, add_log "Could not acquire lock to save token"
                    (set_token (Some t) (add_sent PasswordGrant s)))) /\
  (forall f s, fst (authenticate f s) <> Err FileLockTimeout).
Proof.
  split; [exact save_token_lock_busy |]. split.
  - intros s body t Hl Hp Hr.
    unfold authenticate, _authenticate_new, bind, ret, get, post_auth, lift, modify.
    cbn beta iota. rewrite Hp. simpl. rewrite Hr.
    rewrite save_token_lock_busy; [reflexivity | exact Hl].
  - intros f s. pose proof (authenticate_exns f s) as H.
    destruct (fst (authenticate f s)) as [a|e]; [discriminate |].
    intros E. injection E as ->. discriminate H.
Qed.

Lemma save_lock_timeout_swallowed_witness :
  exists t, authenticate true auth_lock_busy =
            (Ok t, add_log "Could not acquire lock to save token"
                           (set_token (Some t) (add_sent PasswordGrant auth_lock_busy))).
Proof.
  eexists. eapply (proj1 (proj2 save_lock_timeout_swallowed));
    [reflexivity | reflexivity | vm_compute; reflexivity].
Defined.

(* ------------------------------------------------------------------ *)
(** ** C4: a rejected refresh *)

(** C4 (divergence): the token on disk is expired and the provider rejects
    every request as [NotAuthorizedException]. The refresh is rejected with a
    400, [_refresh_token] re-authenticates with the password, which raises
    [InvalidCredentialsError]; [authenticate] catches it with its
    [except Exception] around the loading step and authenticates with the
    password a second time before the error propagates. *)
Theorem refresh_rejected_reauthenticates_twice :
  fst (authenticate false auth_refresh_rejected) = Err InvalidCredentialsError /\
  sent (snd (authenticate false auth_refresh_rejected))
  = [RefreshGrant (JStr "r0"); PasswordGrant; PasswordGrant].
Proof. vm_compute. split; reflexivity. Qed.

(* ------------------------------------------------------------------ *)
(** ** C5: command validation *)

(** C5: a command outside [AVAILABLE_COMMANDS] makes [send_command] raise
    [InvalidCommandError] with the client's state untouched, so with no HTTP
    request; a command of the enumeration never leads to
    [InvalidCommandError]. *)
Theorem send_command_validates_first d dk c dt s :
  (is_available_command c = false ->
   send_command d dk c dt s = (Err InvalidCommandError, s)) /\
  (is_available_command c = true ->
   fst (send_command d dk c dt s) <> Err InvalidCommandError).
Proof.
  split.
  - intros Hc. destruct d; simpl; rewrite Hc; reflexivity.
  - intros Hc. pose proof (send_command_valid_exns d dk c dt Hc s) as H.
    destruct (fst (send_command d dk c dt s)); [discriminate |].
    intros E. injection E as ->. exact (H eq_refl).
Qed.

Lemma send_command_validates_first_witness :
  send_command 2 "dk" "HONK" DEVICE_TYPE_VEHICLE client_always_401
  = (Err InvalidCommandError, client_always_401) /\
  fst (send_command 2 "dk" "ARM" DEVICE_TYPE_VEHICLE client_always_401)
  <> Err InvalidCommandError.
Proof.
  split.
  - apply (proj1 (send_command_validates_first 2 "dk" "HONK" DEVICE_TYPE_VEHICLE
                                               client_always_401)).
    reflexivity.
  - apply (proj2 (send_command_validates_first 2 "dk" "ARM" DEVICE_TYPE_VEHICLE
                                               client_always_401)).
    reflexivity.
Defined.

(* ------------------------------------------------------------------ *)
(** ** C6: migration of a legacy token file *)


(* ------------------------------------------------------------------ *)
(** ** C7: invalidation *)




(* ------------------------------------------------------------------ *)
(** ** C9: defaults of the model parsers *)


(* ------------------------------------------------------------------ *)
(** ** C2: the refresh token is carried forward *)

Lemma assoc_assoc_set_same k v kvs : assoc k (assoc_set k v kvs) = Some v.
Proof.
  induction kvs as [|[k' v'] r IH]; simpl.
  - rewrite String.eqb_refl. reflexivity.
  - destruct (String.eqb k k') eqn:E; simpl; rewrite E; auto.
Qed.

Lemma rbind_Ok_inv {A B} (r : result A) (k : A -> result B) b :
  rbind r k = Ok b -> exists a, r = Ok a /\ k a = Ok b.
Proof. destruct r; simpl; [eauto | discriminate]. Qed.

Lemma parse_auth_response_refresh c resp ar r t :
  py_getitem resp "AuthenticationResult" = Ok ar ->
  py_getitem ar "RefreshToken" = Ok r ->
  _parse_auth_response c resp = Ok t -> refresh_token t = r.
Proof.
  intros H1 H2 Ht. unfold _parse_auth_response in Ht.
  repeat (apply rbind_Ok_inv in Ht; destruct Ht as [?x [?E Ht]]).
  injection Ht as <-. simpl. congruence.
Qed.

(** C2: when the refresh succeeds and the [AuthenticationResult] of the
    answer has no [RefreshToken], the token [_refresh_token] returns keeps the
    refresh token of the token it refreshed. *)
Theorem refresh_keeps_refresh_token s old bkvs ar_kvs t s' :
  token s = Some old ->
  truthy (refresh_token old) = true ->
  provider s (length (sent s)) = PResp 200 (BJson (JObj bkvs)) ->
  assoc "AuthenticationResult" bkvs = Some (JObj ar_kvs) ->
  assoc "RefreshToken" ar_kvs = None ->
  _refresh_token s = (Ok t, s') ->
  refresh_token t = refresh_token old.
Proof.
  intros Htok Htr Hp Har Hrt Hrun.
  unfold _refresh_token, bind, get, ret, post_auth, lift, modify in Hrun.
  cbn beta iota in Hrun. rewrite Htok, Htr in Hrun. cbn beta iota delta [negb] in Hrun.
  rewrite Hp in Hrun. simpl in Hrun.
  rewrite Har in Hrun. simpl in Hrun. rewrite Hrt in Hrun. simpl in Hrun.
  destruct (_parse_auth_response _ _) as [t1|e] eqn:E; [|discriminate Hrun].
  destruct (_save_token t1 _) as [[u|e] s2]; [|discriminate Hrun].
  injection Hrun as <- _.
  eapply parse_auth_response_refresh; [| | exact E]; simpl.
  - rewrite assoc_assoc_set_same. reflexivity.
  - simpl. rewrite assoc_assoc_set_same. reflexivity.
Qed.

Lemma refresh_keeps_refresh_token_witness :
  exists t s', _refresh_token auth_refresh_no_rt = (Ok t, s') /\
               refresh_token t = refresh_token token_2030.
Proof.
  eexists _, _. split; [vm_compute; reflexivity |].
  eapply (refresh_keeps_refresh_token auth_refresh_no_rt token_2030);
    [reflexivity | reflexivity | reflexivity | reflexivity | reflexivity |].
  vm_compute; reflexivity.
Defined.

(* ------------------------------------------------------------------ *)
(** ** C10: a failing load falls back to the password grant *)

Lemma catches_Exception e : catches [CException] e = true.
Proof. destruct e; reflexivity. Qed.

(** C10: when [authenticate()] without [force_refresh] has no usable token
    in memory (none, or one that [is_expired] says has expired), whatever
    [_load_token] raises is caught, logged as "Could not load token", and
    followed by [_authenticate_new]; a load finding no token is followed by
    [_authenticate_new] too. *)
Theorem load_failure_falls_back s :
  (token s = None \/ exists t, token s = Some t /\ is_expired (clk s) t = Ok true) ->
  (forall e s1, _load_token s = (Err e, s1) ->
     authenticate false s = _authenticate_new (add_log "Could not load token" s1)) /\
  (forall s1, _load_token s = (Ok None, s1) ->
     authenticate false s = _authenticate_new (set_token None s1)).
Proof.
  intros Hcache.
  assert (Hc : (if false then ret None
                else match token s with
                     | Some t => e <- lift (is_expired (clk s) t) ;; ret (if e then None else Some t)
                     | None => ret None
                     end) s = (@Ok (option AuthToken) None, s)).
  { destruct Hcache as [-> | [t [-> He]]]; [reflexivity |].
    unfold bind, lift. rewrite He. reflexivity. }
  split.
  - intros e s1 Hl. unfold authenticate at 1. unfold bind at 1, get at 1.
    cbn beta iota. unfold bind at 1. rewrite Hc. cbn beta iota.
    unfold bind at 1, try_except. unfold bind at 1. rewrite Hl.
    rewrite catches_Exception. reflexivity.
  - intros s1 Hl. unfold authenticate at 1. unfold bind at 1, get at 1.
    cbn beta iota. unfold bind at 1. rewrite Hc. cbn beta iota.
    unfold bind at 1, try_except. unfold bind at 1. rewrite Hl. reflexivity.
Qed.

Lemma load_failure_falls_back_witness :
  _load_token auth_bad_expiry = (Err TypeError, auth_bad_expiry) /\
  authenticate false auth_bad_expiry
  = _authenticate_new (add_log "Could not load token" auth_bad_expiry).
Proof.
  split; [vm_compute; reflexivity |].
  refine (proj1 (load_failure_falls_back auth_bad_expiry _) TypeError auth_bad_expiry _).
  - left; reflexivity.
  - vm_compute; reflexivity.
Defined.

(* ------------------------------------------------------------------ *)
(** ** C1 (amended): each 401 costs one forced refresh and one more call *)

Lemma http_calls_app_http l r : http_calls (l ++ [EvHttp r]) = S (http_calls l).
Proof. unfold http_calls. rewrite filter_app, length_app. simpl. lia. Qed.
Lemma http_calls_app_refresh l : http_calls (l ++ [EvForceRefresh]) = http_calls l.
Proof. unfold http_calls. rewrite filter_app, length_app. simpl. lia. Qed.
Lemma forced_refreshes_app_http l r : forced_refreshes (l ++ [EvHttp r]) = forced_refreshes l.
Proof. unfold forced_refreshes. rewrite filter_app, length_app. simpl. lia. Qed.
Lemma forced_refreshes_app_refresh l :
  forced_refreshes (l ++ [EvForceRefresh]) = S (forced_refreshes l).
Proof. unfold forced_refreshes. rewrite filter_app, length_app. simpl. lia. Qed.

Lemma headers_stable a : auth_stable a -> exists h, get_auth_headers a = (Ok h, a).
Proof.
  intros (body & t & t0 & Hp & Hparse & Hexp & Htok & Hexp0).
  cbv [get_auth_headers authenticate bind get ret lift]. rewrite Htok.
  cbv beta iota. rewrite Hexp0. cbv beta iota. eexists. reflexivity.
Qed.

Lemma save_token_frame t x :
  exists x', _save_token t x = (Ok tt, x') /\
             token x' = token x /\ provider x' = provider x /\ clk x' = clk x.
Proof.
  unfold _save_token, try_except, bind, get, modify, log. cbv beta iota.
  destruct (lock_busy x); simpl; eexists; repeat split.
Qed.

Lemma refresh_stable a :
  auth_stable a -> exists t a', authenticate true a = (Ok t, a') /\ auth_stable a'.
Proof.
  intros (body & t & t0 & Hp & Hparse & Hexp & Htok & Hexp0).
  destruct (save_token_frame t (set_token (Some t) (add_sent PasswordGrant a)))
    as (x' & Hs & Htk & Hpv & Hck).
  exists t, x'. split.
  - cbv [authenticate _authenticate_new bind get ret lift post_auth modify].
    cbv beta iota. rewrite Hp. cbv beta iota. simpl. rewrite Hparse.
    rewrite Hs. reflexivity.
  - simpl in Htk, Hpv, Hck. exists body, t, t.
    rewrite Htk, Hpv, Hck. repeat split; auto.
Qed.

Lemma run_op_200 d op s body :
  auth_stable (auth s) -> op_valid op = true ->
  api s (http_calls (trace s)) = HResp 200 body ->
  run_op d op s = on_200 op body (add_event (EvHttp (op_request op)) s).
Proof.
  intros Hst Hv Hapi. destruct (headers_stable _ Hst) as [h Hh].
  destruct s as [a ap tr vs]; simpl in Hh, Hapi.
  destruct op as [|vid|dk c dt]; simpl in Hv; destruct d;
    cbv [run_op on_200 fmap_M get_vehicles get_vehicle_status send_command];
    try (rewrite Hv; cbv [negb]); cbv [bind lift_auth http]; simpl; rewrite Hh; simpl;
    rewrite Hapi; reflexivity.
Qed.

Lemma run_op_401 d op s b :
  auth_stable (auth s) -> op_valid op = true ->
  api s (http_calls (trace s)) = HResp 401 b ->
  exists a', auth_stable a' /\
    run_op d op s = match d with
                    | O => (Err RecursionError, after_refresh op a' s)
                    | S d' => run_op d' op (after_refresh op a' s)
                    end.
Proof.
  intros Hst Hv Hapi. destruct (headers_stable _ Hst) as [h Hh].
  destruct (refresh_stable _ Hst) as (t & a' & Hr & Hst').
  exists a'. split; [exact Hst' |].
  destruct s as [a ap tr vs]; simpl in Hh, Hapi, Hr.
  destruct op as [|vid|dk c dt]; simpl in Hv; destruct d;
    cbv [run_op on_200 fmap_M get_vehicles get_vehicle_status send_command];
    try (rewrite Hv; cbv [negb]);
    cbv [bind lift_auth http force_refresh modify add_event ret]; simpl; rewrite Hh; simpl;
    rewrite Hapi; simpl; rewrite Hr; reflexivity.
Qed.

(** C1 (amended): on a 401 each operation forces a refresh and calls itself
    again, with no bound other than the interpreter's stack. When the first
    [k] answers are 401 and the next is 200, with room for [k] nested calls,
    the operation makes [k + 1] HTTP requests and [k] forced refreshes, then
    processes the 200 answer; against a server answering 401 forever it
    makes one request and one forced refresh per level of the stack and
    ends in [RecursionError]. *)
Theorem api_401_retry_unbounded :
  (forall k depth op s body,
     (k <= depth)%nat -> auth_stable (auth s) -> op_valid op = true ->
     (forall i, (i < k)%nat -> exists b, api s (http_calls (trace s) + i) = HResp 401 b) ->
     api s (http_calls (trace s) + k) = HResp 200 body ->
     exists s'', run_op depth op s = on_200 op body s'' /\
                 http_calls (trace s'') = (http_calls (trace s) + S k)%nat /\
                 forced_refreshes (trace s'') = (forced_refreshes (trace s) + k)%nat) /\
  (forall depth op s,
     auth_stable (auth s) -> op_valid op = true ->
     (forall n, exists b, api s n = HResp 401 b) ->
     fst (run_op depth op s) = Err RecursionError /\
     http_calls (trace (snd (run_op depth op s))) = (http_calls (trace s) + S depth)%nat /\
     forced_refreshes (trace (snd (run_op depth op s)))
     = (forced_refreshes (trace s) + S depth)%nat).
Proof.
  split.
  - intros k. induction k as [|k IH]; intros depth op s body Hk Hst Hv H401 H200.
    + rewrite Nat.add_0_r in H200.
      exists (add_event (EvHttp (op_request op)) s). split; [exact (run_op_200 _ _ _ _ Hst Hv H200) |].
      simpl. rewrite http_calls_app_http, forced_refreshes_app_http. lia.
    + destruct (H401 0%nat ltac:(lia)) as [b Hb]. rewrite Nat.add_0_r in Hb.
      destruct (run_op_401 depth _ _ _ Hst Hv Hb) as (a' & Hst' & Hrun).
      destruct depth as [|depth]; [lia |]. rewrite Hrun.
      set (s2 := after_refresh op a' s).
      assert (Hc : http_calls (trace s2) = S (http_calls (trace s))).
      { simpl. rewrite http_calls_app_refresh, http_calls_app_http. reflexivity. }
      assert (Hf : forced_refreshes (trace s2) = S (forced_refreshes (trace s))).
      { simpl. rewrite forced_refreshes_app_refresh, forced_refreshes_app_http. reflexivity. }
      destruct (IH depth op s2 body) as (s'' & Hr & Hc'' & Hf''); auto; try lia.
      * intros i Hi. destruct (H401 (S i) ltac:(lia)) as [b' Hb'].
        exists b'. rewrite Hc, <- Hb'.
        replace (S (http_calls (trace s)) + i)%nat with (http_calls (trace s) + S i)%nat
          by lia. reflexivity.
      * rewrite Hc, <- H200.
        replace (S (http_calls (trace s)) + k)%nat with (http_calls (trace s) + S k)%nat
          by lia. reflexivity.
      * exists s''. split; [exact Hr | lia].
  - intros depth. induction depth as [|depth IH]; intros op s Hst Hv H401;
      destruct (H401 (http_calls (trace s))) as [b Hb].
    + destruct (run_op_401 0 _ _ _ Hst Hv Hb) as (a' & Hst' & Hrun). rewrite Hrun.
      simpl. rewrite http_calls_app_refresh, http_calls_app_http,
               forced_refreshes_app_refresh, forced_refreshes_app_http.
      repeat split; lia.
    + destruct (run_op_401 (S depth) _ _ _ Hst Hv Hb) as (a' & Hst' & Hrun). rewrite Hrun.
      destruct (IH op (after_refresh op a' s) Hst' Hv H401) as (He & Hc & Hf).
      simpl in Hc, Hf.
      rewrite http_calls_app_refresh, http_calls_app_http in Hc.
      rewrite forced_refreshes_app_refresh, forced_refreshes_app_http in Hf.
      repeat split; [exact He | lia | lia].
Qed.

Lemma api_401_retry_unbounded_witness :
  exists s'', run_op 5%nat (OpGetVehicleStatus "v1") client_401_once
              = on_200 (OpGetVehicleStatus "v1") (BJson status_body) s'' /\
              http_calls (trace s'') = 2%nat /\ forced_refreshes (trace s'') = 1%nat.
Proof.
  refine (proj1 api_401_retry_unbounded 1%nat 5%nat (OpGetVehicleStatus "v1") client_401_once
                (BJson status_body) _ _ _ _ _).
  - lia.
  - eexists _, _, _. split; [intros n; reflexivity |].
    split; [vm_compute; reflexivity |]. split; [vm_compute; reflexivity |].
    split; [reflexivity | vm_compute; reflexivity].
  - reflexivity.
  - intros i Hi. assert (i = 0%nat) by lia. subst. eexists. reflexivity.
  - reflexivity.
Defined.

(* ------------------------------------------------------------------ *)
(** ** C9 (amended): what the model parsers give absent or bad fields *)









(* ------------------------------------------------------------------ *)
(** ** C8: the persistence encoding of a token round-trips *)

Lemma str_app_empty_r (s : string) : (s ++ "")%string = s.
Proof. induction s as [|c s IH]; simpl; congruence. Qed.

Lemma str_app_assoc (a b c : string) : ((a ++ b) ++ c)%string = (a ++ (b ++ c))%string.
Proof. induction a as [|x a IH]; simpl; congruence. Qed.

Lemma digit_char_ok x :
  0 <= x < 10 -> is_digit (digit_char x) = true /\ digit_val (digit_char x) = x.
Proof.
  intros H.
  assert (x = 0 \/ x = 1 \/ x = 2 \/ x = 3 \/ x = 4 \/ x = 5 \/ x = 6 \/ x = 7 \/ x = 8 \/ x = 9)
    as Hx by lia.
  repeat destruct Hx as [-> | Hx]; [..| subst x]; split; reflexivity.
Qed.

Lemma Zmod_mul_r a b c : 0 < b -> 0 < c -> a mod (b * c) = a mod b + b * ((a / b) mod c).
Proof.
  intros Hb Hc.
  rewrite (Z.mod_eq a (b * c)) by lia. rewrite <- Z.div_div by lia.
  rewrite (Z.mod_eq (a / b) c) by lia. rewrite (Z.mod_eq a b) by lia. ring.
Qed.

Lemma parse_digits_acc_zpad k acc n rest :
  parse_digits_acc k acc (zpad k n ++ rest)
  = Some (acc * 10 ^ Z.of_nat k + n mod 10 ^ Z.of_nat k, rest).
Proof.
  revert acc. induction k as [|k IH]; intros acc.
  - simpl. rewrite Z.mod_1_r. f_equal. f_equal. ring.
  - cbn [zpad append parse_digits_acc].
    assert (Hb : 0 <= (n / 10 ^ Z.of_nat k) mod 10 < 10) by (apply Z.mod_pos_bound; lia).
    destruct (digit_char_ok _ Hb) as [-> ->]. rewrite IH. f_equal. f_equal.
    rewrite Nat2Z.inj_succ, Z.pow_succ_r by lia.
    rewrite (Z.mul_comm 10 (10 ^ Z.of_nat k)).
    rewrite Zmod_mul_r by (try apply Z.pow_pos_nonneg; lia). ring.
Qed.

Lemma parse_digits_zpad k n rest :
  0 <= n < 10 ^ Z.of_nat k -> parse_digits k (zpad k n ++ rest) = Some (n, rest).
Proof.
  intros H. unfold parse_digits. rewrite parse_digits_acc_zpad.
  rewrite Z.mod_small by exact H. f_equal.
Qed.

Lemma zpad_length k n : String.length (zpad k n) = k.
Proof. induction k as [|k IH]; simpl; congruence. Qed.

Lemma zpad_app_nonempty k n (x : string) : (zpad (S k) n ++ x)%string <> EmptyString.
Proof. simpl. discriminate. Qed.

Lemma digit_char_not_sign x :
  0 <= x < 10 -> (Ascii.eqb (digit_char x) "+"%char || Ascii.eqb (digit_char x) "-"%char) = false.
Proof.
  intros H.
  assert (x = 0 \/ x = 1 \/ x = 2 \/ x = 3 \/ x = 4 \/ x = 5 \/ x = 6 \/ x = 7 \/ x = 8 \/ x = 9)
    as Hx by lia.
  repeat destruct Hx as [-> | Hx]; [..| subst x]; reflexivity.
Qed.

Lemma no_sign_zpad k n : no_sign (zpad k n) = true.
Proof.
  induction k as [|k IH]; [reflexivity|].
  cbn [zpad no_sign]. rewrite digit_char_not_sign by (apply Z.mod_pos_bound; lia).
  exact IH.
Qed.

Lemma split_tz_app a b :
  no_sign a = true -> split_tz (a ++ b) = ((a ++ fst (split_tz b))%string, snd (split_tz b)).
Proof.
  induction a as [|c a IH]; intros H.
  - simpl. destruct (split_tz b); reflexivity.
  - cbn [no_sign] in H. apply andb_prop in H. destruct H as [Hc Ha].
    apply negb_true_iff in Hc.
    cbn [append split_tz]. rewrite Hc, (IH Ha). reflexivity.
Qed.

Lemma split_tz_sign c r :
  (Ascii.eqb c "+"%char || Ascii.eqb c "-"%char) = true -> split_tz (String c r) = (EmptyString, Some (c, r)).
Proof. intros H. cbn [split_tz]. rewrite H. reflexivity. Qed.

Lemma str_length_app (a b : string) : String.length (a ++ b) = (String.length a + String.length b)%nat.
Proof. induction a as [|c a IH]; simpl; congruence. Qed.

Lemma hms_colon n v p after acc :
  0 <= v < 100 -> p <> EmptyString ->
  hms_fields (S n) (zpad 2 v ++ ":" ++ p) after acc = hms_fields n p after (acc ++ [v])%list.
Proof.
  intros Hv Hp. cbn [hms_fields]. rewrite parse_digits_zpad by (cbn; lia).
  destruct p; [contradiction|reflexivity].
Qed.

Lemma hms_dot n v p after acc :
  0 <= v < 100 -> p <> EmptyString ->
  hms_fields (S n) (zpad 2 v ++ "." ++ p) after acc = HmsFrac (acc ++ [v])%list p.
Proof.
  intros Hv Hp. cbn [hms_fields]. rewrite parse_digits_zpad by (cbn; lia).
  destruct p; [contradiction|reflexivity].
Qed.

Lemma hms_last n v after acc :
  0 <= v < 100 ->
  hms_fields (S n) (zpad 2 v) after acc = HmsDone (acc ++ [v])%list (negb (Ascii.eqb after NUL)).
Proof.
  intros Hv. cbn [hms_fields]. rewrite <- (str_app_empty_r (zpad 2 v)).
  rewrite parse_digits_zpad by (cbn; lia). reflexivity.
Qed.

Lemma hms2_parse hh mm :
  0 <= hh < 100 -> 0 <= mm < 100 ->
  parse_hh_mm_ss_ff (zpad 2 hh ++ ":" ++ zpad 2 mm) NUL = Some (hh, mm, 0, 0, false).
Proof.
  intros Hh Hm. unfold parse_hh_mm_ss_ff.
  rewrite hms_colon, hms_last by (auto using zpad_app_nonempty; discriminate).
  reflexivity.
Qed.

Lemma hms3_parse h mi s after :
  0 <= h < 100 -> 0 <= mi < 100 -> 0 <= s < 100 ->
  parse_hh_mm_ss_ff (zpad 2 h ++ ":" ++ zpad 2 mi ++ ":" ++ zpad 2 s) after
  = Some (h, mi, s, 0, negb (Ascii.eqb after NUL)).
Proof.
  intros Hh Hm Hs. unfold parse_hh_mm_ss_ff.
  rewrite hms_colon by (auto; discriminate).
  rewrite hms_colon by (auto; discriminate).
  rewrite hms_last by auto. reflexivity.
Qed.

Lemma hms3_frac_parse h mi s us after :
  0 <= h < 100 -> 0 <= mi < 100 -> 0 <= s < 100 -> 0 <= us < 1000000 ->
  parse_hh_mm_ss_ff (zpad 2 h ++ ":" ++ zpad 2 mi ++ ":" ++ zpad 2 s ++ "." ++ zpad 6 us) after
  = Some (h, mi, s, us, negb (Ascii.eqb after NUL)).
Proof.
  intros Hh Hm Hs Hu. unfold parse_hh_mm_ss_ff.
  rewrite hms_colon by (auto; discriminate).
  rewrite hms_colon by (auto; discriminate).
  rewrite hms_dot by (auto; discriminate).
  rewrite zpad_length. cbn [Nat.eqb orb].
  rewrite <- (str_app_empty_r (zpad 6 us)).
  rewrite parse_digits_zpad by (cbn; lia). reflexivity.
Qed.

Lemma offset_fields a :
  0 <= a < US_PER_DAY ->
  let secs := a / US_PER_SEC in
  0 <= secs / 3600 < 24 /\ 0 <= (secs mod 3600) / 60 < 60 /\ 0 <= secs mod 60 < 60
  /\ 0 <= a mod US_PER_SEC < 1000000
  /\ ((secs / 3600) * 3600 + ((secs mod 3600) / 60) * 60 + secs mod 60) * US_PER_SEC
     + a mod US_PER_SEC = a.
Proof.
  unfold US_PER_DAY, US_PER_SEC. intros Ha. cbv zeta.
  Z.div_mod_to_equations. lia.
Qed.

Lemma format_offset_parse off :
  Z.abs off < US_PER_DAY ->
  exists c r th tm ts tus,
    format_offset off = String c r
    /\ (Ascii.eqb c "+"%char || Ascii.eqb c "-"%char) = true
    /\ ((String.length r =? 5) || (String.length r =? 8) || (String.length r =? 15))%nat = true
    /\ parse_hh_mm_ss_ff r NUL = Some (th, tm, ts, tus, false)
    /\ (if Ascii.eqb c "-"%char then -1 else 1)
       * (((th * 3600 + tm * 60 + ts) * US_PER_SEC) + tus) = off.
Proof.
  intros Hoff.
  assert (Ha : 0 <= Z.abs off < US_PER_DAY) by lia.
  destruct (offset_fields _ Ha) as (Hh & Hm & Hs & Hu & Heq).
  assert (Hsign : (if Ascii.eqb (if off <? 0 then "-"%char else "+"%char) "-"%char then -1 else 1)
                  * Z.abs off = off).
  { destruct (off <? 0) eqn:E; [apply Z.ltb_lt in E | apply Z.ltb_ge in E]; cbv [Ascii.eqb Bool.eqb]; lia. }
  unfold format_offset. cbv zeta.
  set (a := Z.abs off) in *. set (secs := a / US_PER_SEC) in *.
  set (hh := secs / 3600) in *. set (mm := (secs mod 3600) / 60) in *.
  set (ss := secs mod 60) in *. set (us := a mod US_PER_SEC) in *.
  destruct (us =? 0) eqn:Hus0; destruct (ss =? 0) eqn:Hss0; cbn [andb].
  - (* +HH:MM *)
    exists (if off <? 0 then "-"%char else "+"%char), (zpad 2 hh ++ ":" ++ zpad 2 mm)%string,
      hh, mm, 0, 0.
    apply Z.eqb_eq in Hus0, Hss0.
    split; [destruct (off <? 0); reflexivity|].
    split; [destruct (off <? 0); reflexivity|].
    split; [reflexivity|].
    split; [apply hms2_parse; lia|].
    etransitivity; [|exact Hsign]. f_equal. rewrite <- Heq, Hus0, Hss0. ring.
  - (* +HH:MM:SS *)
    exists (if off <? 0 then "-"%char else "+"%char),
      (zpad 2 hh ++ ":" ++ zpad 2 mm ++ ":" ++ zpad 2 ss)%string, hh, mm, ss, 0.
    apply Z.eqb_eq in Hus0.
    split; [destruct (off <? 0); cbn [append]; rewrite !str_app_empty_r; reflexivity|].
    split; [destruct (off <? 0); reflexivity|].
    split; [reflexivity|].
    split; [apply (hms3_parse hh mm ss NUL); lia|].
    etransitivity; [|exact Hsign]. f_equal. rewrite <- Heq, Hus0. ring.
  - (* +HH:MM:SS.ffffff *)
    exists (if off <? 0 then "-"%char else "+"%char),
      (zpad 2 hh ++ ":" ++ zpad 2 mm ++ ":" ++ zpad 2 ss ++ "." ++ zpad 6 us)%string, hh, mm, ss, us.
    split; [destruct (off <? 0); reflexivity|].
    split; [destruct (off <? 0); reflexivity|].
    split; [rewrite !str_length_app, !zpad_length; reflexivity|].
    split; [apply (hms3_frac_parse hh mm ss us NUL); lia|].
    etransitivity; [|exact Hsign]. f_equal. rewrite <- Heq. ring.
  - exists (if off <? 0 then "-"%char else "+"%char),
      (zpad 2 hh ++ ":" ++ zpad 2 mm ++ ":" ++ zpad 2 ss ++ "." ++ zpad 6 us)%string, hh, mm, ss, us.
    split; [destruct (off <? 0); reflexivity|].
    split; [destruct (off <? 0); reflexivity|].
    split; [rewrite !str_length_app, !zpad_length; reflexivity|].
    split; [apply (hms3_frac_parse hh mm ss us NUL); lia|].
    etransitivity; [|exact Hsign]. f_equal. rewrite <- Heq. ring.
Qed.

Lemma str_app_empty_l (s : string) : ("" ++ s)%string = s.
Proof. reflexivity. Qed.

Lemma str_cons c (s : string) : (String c "" ++ s)%string = String c s.
Proof. reflexivity. Qed.

Ltac split_tz_pieces :=
  repeat (rewrite split_tz_app by (first [apply no_sign_zpad | reflexivity]); cbn [fst snd]).

Lemma parse_date_iso y m d rest :
  0 <= y < 10000 -> 0 <= m < 100 -> 0 <= d < 100 ->
  parse_isoformat_date (zpad 4 y ++ "-" ++ zpad 2 m ++ "-" ++ zpad 2 d ++ rest) = Some (y, m, d, rest).
Proof.
  intros Hy Hm Hd. unfold parse_isoformat_date.
  rewrite parse_digits_zpad by (cbn; lia). cbn [append].
  rewrite parse_digits_zpad by (cbn; lia). cbn [append].
  rewrite parse_digits_zpad by (cbn; lia). reflexivity.
Qed.

Lemma parse_time_iso h mi s us tz :
  0 <= h < 24 -> 0 <= mi < 60 -> 0 <= s < 60 -> 0 <= us < US_PER_SEC ->
  (forall off, tz = Some off -> Z.abs off < US_PER_DAY) ->
  parse_isoformat_time
    (zpad 2 h ++ ":" ++ zpad 2 mi ++ ":" ++ zpad 2 s
     ++ (if us =? 0 then "" else "." ++ zpad 6 us)
     ++ (match tz with None => "" | Some off => format_offset off end))
  = Some (h, mi, s, us, tz).
Proof.
  unfold US_PER_SEC. intros Hh Hm Hs Hu Htz. unfold parse_isoformat_time.
  destruct tz as [off|].
  - destruct (format_offset_parse off (Htz off eq_refl))
      as (c & r & th & tm & ts & tus & Hf & Hc & Hl & Hp & Ho).
    rewrite Hf.
    destruct (us =? 0) eqn:Hu0.
    + apply Z.eqb_eq in Hu0. subst us.
      rewrite str_app_empty_l. split_tz_pieces.
      rewrite (split_tz_sign c r Hc). cbn [fst snd].
      rewrite str_app_empty_r, hms3_parse by lia. cbv zeta.
      rewrite Hl, Hp. cbv beta iota. rewrite Ho. reflexivity.
    + rewrite str_app_assoc. split_tz_pieces.
      rewrite (split_tz_sign c r Hc). cbn [fst snd].
      rewrite str_app_empty_r, hms3_frac_parse by lia. cbv zeta.
      rewrite Hl, Hp. cbv beta iota. rewrite Ho. reflexivity.
  - destruct (us =? 0) eqn:Hu0.
    + apply Z.eqb_eq in Hu0. subst us.
      rewrite str_app_empty_l. cbn [split_tz fst snd].
      split_tz_pieces. cbn [split_tz fst snd].
      rewrite str_app_empty_r, hms3_parse by lia. reflexivity.
    + rewrite str_app_assoc. split_tz_pieces. cbn [split_tz fst snd].
      rewrite str_app_empty_r, hms3_frac_parse by lia. reflexivity.
Qed.

Lemma days_in_month_le y m : days_in_month y m <= 31.
Proof.
  unfold days_in_month.
  destruct (m =? 2); [destruct (is_leap y)|destruct (_ || _)]; lia.
Qed.

Lemma fromisoformat_isoformat d :
  valid_datetime d = true -> fromisoformat (JStr (isoformat d)) = Ok d.
Proof.
  intros Hv. pose proof Hv as Hv'.
  destruct d as [y m dd h mi se us tz].
  unfold valid_datetime in Hv; cbn [dt_year dt_month dt_day dt_hour dt_minute dt_second
    dt_microsecond dt_tzoff] in Hv.
  repeat rewrite andb_true_iff in Hv.
  destruct Hv as [[[[[[[[[[[[[[Hy1 Hy2] Hm1] Hm2] Hd1] Hd2] Hh1] Hh2] Hi1] Hi2] Hs1] Hs2] Hu1] Hu2] Htz].
  apply Z.leb_le in Hy1, Hy2, Hm1, Hm2, Hd1, Hd2, Hh1, Hi1, Hs1, Hu1.
  apply Z.ltb_lt in Hh2, Hi2, Hs2, Hu2.
  pose proof (days_in_month_le y m).
  unfold fromisoformat, isoformat; cbn [dt_year dt_month dt_day dt_hour dt_minute dt_second
    dt_microsecond dt_tzoff].
  rewrite parse_date_iso by lia. rewrite (str_cons "T"%char).
  rewrite parse_time_iso by (try lia; intros off ->; apply Z.ltb_lt; exact Htz).
  rewrite Hv'. reflexivity.
Qed.



(* ------------------------------------------------------------------ *)
(** ** C6: migration of a legacy token file *)

Lemma days_before_year_succ y :
  days_before_year (y + 1) = days_before_year y + days_in_year y.
Proof.
  unfold days_before_year, days_in_year, is_leap.
  replace (y + 1 - 1) with y by ring.
  destruct (Z.eqb_spec (y mod 4) 0); destruct (Z.eqb_spec (y mod 100) 0);
    destruct (Z.eqb_spec (y mod 400) 0); cbn [andb orb negb];
    Z.div_mod_to_equations; lia.
Qed.

Lemma days_before_year_cycle q : days_before_year (q * 400 + 1) = q * DI400Y.
Proof.
  unfold days_before_year, DI400Y. replace (q * 400 + 1 - 1) with (q * 400) by ring.
  assert (E4 : q * 400 / 4 = q * 100).
  { replace (q * 400) with (q * 100 * 4) by ring. apply Z.div_mul; lia. }
  assert (E100 : q * 400 / 100 = q * 4).
  { replace (q * 400) with (q * 4 * 100) by ring. apply Z.div_mul; lia. }
  assert (E400 : q * 400 / 400 = q) by (apply Z.div_mul; lia).
  rewrite E4, E100, E400. ring.
Qed.

Lemma year_walk_inv F y n :
  days_before_year (fst (year_walk F y n)) + snd (year_walk F y n) = days_before_year y + n.
Proof.
  revert y n. induction F as [|F IH]; intros y n; cbn [year_walk]; [reflexivity|].
  destruct (n <? days_in_year y); [reflexivity|].
  rewrite IH, days_before_year_succ. ring.
Qed.

Lemma days_before_month_succ y m :
  1 <= m <= 11 -> days_before_month y (m + 1) = days_before_month y m + days_in_month y m.
Proof.
  intros Hm.
  assert (m = 1 \/ m = 2 \/ m = 3 \/ m = 4 \/ m = 5 \/ m = 6 \/ m = 7 \/ m = 8 \/ m = 9
          \/ m = 10 \/ m = 11) as Hc by lia.
  unfold days_before_month, days_in_month.
  repeat destruct Hc as [-> | Hc]; [..| subst m]; destruct (is_leap y); reflexivity.
Qed.

Lemma month_walk_inv F y m n :
  1 <= m -> m + Z.of_nat F <= 12 ->
  days_before_month y (fst (month_walk F y m n)) + snd (month_walk F y m n)
  = days_before_month y m + n.
Proof.
  revert m n. induction F as [|F IH]; intros m n Hm HF; cbn [month_walk]; [reflexivity|].
  destruct (n <? days_in_month y m); [reflexivity|].
  rewrite Nat2Z.inj_succ in HF.
  rewrite IH by lia. rewrite days_before_month_succ by lia. ring.
Qed.

Lemma ymd2ord_ord2ymd n y m d : ord2ymd n = (y, m, d) -> ymd2ord y m d = n.
Proof.
  unfold ord2ymd. cbv zeta.
  destruct (year_walk 400 ((n - 1) / DI400Y * 400 + 1) ((n - 1) mod DI400Y)) as [y1 dy1] eqn:Ey.
  destruct (month_walk 11 y1 1 dy1) as [m1 dm1] eqn:Em.
  intros E; injection E as <- <- <-.
  pose proof (year_walk_inv 400 ((n - 1) / DI400Y * 400 + 1) ((n - 1) mod DI400Y)) as Hy.
  rewrite Ey, days_before_year_cycle in Hy. cbn [fst snd] in Hy.
  pose proof (month_walk_inv 11 y1 1 dy1) as Hm. rewrite Em in Hm. cbn [fst snd] in Hm.
  assert (Hd : days_before_month y1 1 = 0) by (unfold days_before_month; reflexivity).
  unfold ymd2ord. specialize (Hm ltac:(lia) ltac:(cbn; lia)).
  pose proof (Z.div_mod (n - 1) DI400Y ltac:(unfold DI400Y; lia)). lia.
Qed.

Lemma local_us_from_local_us x tz d :
  from_local_us x tz = Some d -> local_us d = x /\ dt_tzoff d = tz.
Proof.
  unfold from_local_us.
  destruct ((0 <=? x) && (x <? MAXORDINAL * US_PER_DAY)); [|discriminate].
  destruct (ord2ymd (x / US_PER_DAY + 1)) as [[y m] dd] eqn:E.
  intros H; injection H as <-.
  apply ymd2ord_ord2ymd in E.
  unfold local_us; cbn [dt_year dt_month dt_day dt_hour dt_minute dt_second dt_microsecond dt_tzoff].
  rewrite E. split; [|reflexivity].
  unfold US_PER_DAY, US_PER_SEC in *.
  Z.div_mod_to_equations. lia.
Qed.

Lemma from_local_us_some x tz :
  0 <= x < MAXORDINAL * US_PER_DAY -> exists d, from_local_us x tz = Some d.
Proof.
  intros Hx. unfold from_local_us.
  replace ((0 <=? x) && (x <? MAXORDINAL * US_PER_DAY)) with true
    by (symmetry; apply andb_true_iff; split; [apply Z.leb_le | apply Z.ltb_lt]; lia).
  destruct (ord2ymd (x / US_PER_DAY + 1)) as [[y m] dd]. eexists; reflexivity.
Qed.


Lemma datetime_now_ok c :
  0 <= local_of_posix c (clock_us c) < MAXORDINAL * US_PER_DAY ->
  exists d, datetime_now c = Ok d
            /\ local_us d = local_of_posix c (clock_us c) /\ dt_tzoff d = None.
Proof.
  intros Hr. unfold datetime_now.
  destruct (from_local_us_some _ None Hr) as [d Hd]. rewrite Hd.
  destruct (local_us_from_local_us _ _ _ Hd). exists d. auto.
Qed.



(* ------------------------------------------------------------------ *)
(** ** Further properties of the token manager, the client, the vehicles and the models *)

(** X1: [authenticate(force_refresh=True)] sends exactly one password grant and leaves the legacy token file alone; on success the new token is held in memory and written to the token file (unless the file lock is busy), and on failure the token in memory and the token file are unchanged. *)
Theorem authenticate_forced_effects s :
  sent (snd (authenticate true s)) = (sent s ++ [PasswordGrant])%list
  /\ legacy_file (snd (authenticate true s)) = legacy_file s
  /\ match fst (authenticate true s) with
     | Ok t => token (snd (authenticate true s)) = Some t
               /\ token_file (snd (authenticate true s))
                  = (if lock_busy s then token_file s else Some (FJson (AuthToken_to_dict t)))
     | Err _ => token (snd (authenticate true s)) = token s
                /\ token_file (snd (authenticate true s)) = token_file s
     end.
Proof.
  destruct s as [tok tf lf lb prov snt c lg].
  change (authenticate true) with _authenticate_new.
  cbv [_authenticate_new _save_token bind post_auth lift get ret raise modify try_except log
       token_file legacy_file lock_busy provider sent clk token add_sent].
  destruct (prov (length snt)) as [|code body]; [repeat split|].
  destruct (code =? 200).
  - destruct (resp_json body); [|repeat split].
    cbn [set_token]. destruct (_parse_auth_response c a); [|repeat split].
    destruct lb; cbn; repeat split.
  - destruct (code =? 400); [|repeat split].
    destruct (resp_json body); [|repeat split].
    destruct (py_get a "__type" (JStr "")); [|repeat split].
    destruct (py_contains "NotAuthorizedException" a0) as [[]|]; [repeat split| |repeat split].
    destruct (py_get a "message" (JStr "Unknown error")); repeat split.
Qed.


(** X2: [_authenticate_new] raises a network error when the provider cannot be reached, an authentication error for a status other than 200 and 400, and for a 400 whose [__type] is a string an invalid-credentials error exactly when it contains [NotAuthorizedException], an authentication error otherwise. *)
Theorem authenticate_new_error_classes s :
  (provider s (length (sent s)) = PNetErr -> fst (_authenticate_new s) = Err NetworkError) /\
  (forall code body, provider s (length (sent s)) = PResp code body ->
     code <> 200 -> code <> 400 -> fst (_authenticate_new s) = Err AuthenticationError) /\
  (forall kvs ty, provider s (length (sent s)) = PResp 400 (BJson (JObj kvs)) ->
     assoc "__type" kvs = Some (JStr ty) ->
     fst (_authenticate_new s)
     = Err (if is_substring "NotAuthorizedException" ty then InvalidCredentialsError
            else AuthenticationError)).
Proof.
  cbv [_authenticate_new bind post_auth lift get ret raise]. split; [|split].
  - intros H. rewrite H. reflexivity.
  - intros code body H H2 H4. rewrite H.
    apply Z.eqb_neq in H2, H4. rewrite H2, H4. reflexivity.
  - intros kvs ty H Ht. rewrite H. cbv [resp_json py_get py_contains]. simpl. rewrite Ht.
    destruct (is_substring _ ty); reflexivity.
Qed.

Lemma py_getitem_errs v k e : py_getitem v k = Err e -> e = KeyError \/ e = TypeError.
Proof. unfold py_getitem. destruct v; try (intros H; inversion H; auto; fail). destruct (assoc k kvs); intros H; inversion H; auto. Qed.

Lemma fromisoformat_errs v e : fromisoformat v = Err e -> e = ValueError \/ e = TypeError.
Proof.
  unfold fromisoformat. destruct v; try (intros H; inversion H; auto; fail).
  repeat match goal with
         | |- context [match ?x with _ => _ end] => destruct x
         end; intros H; inversion H; auto.
Qed.

Lemma AuthToken_from_dict_errs d e :
  AuthToken_from_dict d = Err e -> e = KeyError \/ e = TypeError \/ e = ValueError.
Proof.
  unfold AuthToken_from_dict, rbind.
  destruct (py_getitem d "access_token") eqn:E1;
    [|intros H; inversion H; subst; destruct (py_getitem_errs _ _ _ E1); auto].
  destruct (py_getitem d "id_token") eqn:E2;
    [|intros H; inversion H; subst; destruct (py_getitem_errs _ _ _ E2); auto].
  destruct (py_getitem d "refresh_token") eqn:E3;
    [|intros H; inversion H; subst; destruct (py_getitem_errs _ _ _ E3); auto].
  destruct (py_getitem d "token_type") eqn:E4;
    [|intros H; inversion H; subst; destruct (py_getitem_errs _ _ _ E4); auto].
  destruct (py_getitem d "expires_at") eqn:E5;
    [|intros H; inversion H; subst; destruct (py_getitem_errs _ _ _ E5); auto].
  destruct (fromisoformat a3) eqn:E6;
    [discriminate|intros H; inversion H; subst; destruct (fromisoformat_errs _ _ E6); auto].
Qed.

(** X4: when the token file exists, [_load_token] never reads or removes the legacy file, changes neither the token in memory nor the requests sent, and returns a token only if the file's JSON decodes into one; the only error it lets through is a TypeError. *)
Theorem load_token_primary_only s c :
  token_file s = Some c ->
  legacy_file (snd (_load_token s)) = legacy_file s
  /\ token_file (snd (_load_token s)) = Some c
  /\ token (snd (_load_token s)) = token s
  /\ sent (snd (_load_token s)) = sent s
  /\ match fst (_load_token s) with
     | Ok (Some t) => exists d, json_load c = Ok d /\ AuthToken_from_dict d = Ok t
     | Ok None => True
     | Err e => e = TypeError
     end.
Proof.
  intros Hc. destruct s as [tok tf lf lb prov snt ck lg]; cbn [token_file] in Hc; subst tf.
  cbv [_load_token bind get try_except lift ret log modify token_file].
  destruct (json_load c) as [d|e] eqn:Ej.
  - destruct (AuthToken_from_dict d) as [t|e] eqn:Et.
    + cbn. repeat split. eauto.
    + assert (He : result_only auth_P (AuthToken_from_dict d)) by apply AuthToken_from_dict_exns.
      destruct (AuthToken_from_dict_errs _ _ Et) as [->|[->| ->]]; cbn; repeat split.
  - destruct c; cbn in Ej; inversion Ej; subst; cbn; repeat split.
Qed.

Lemma from_dict_to_dict t :
  valid_datetime (expires_at t) = true -> AuthToken_from_dict (AuthToken_to_dict t) = Ok t.
Proof.
  intros Hv. destruct t as [a i r ty ea]; cbn [expires_at] in Hv.
  unfold AuthToken_from_dict, AuthToken_to_dict, py_getitem; cbn [expires_at].
  cbn -[fromisoformat isoformat].
  rewrite (fromisoformat_isoformat ea Hv). reflexivity.
Qed.

Lemma load_token_saved s t :
  token_file s = Some (FJson (AuthToken_to_dict t)) ->
  valid_datetime (expires_at t) = true ->
  _load_token s = (Ok (Some t), s).
Proof.
  intros Hf Hv. cbv [_load_token bind get try_except lift ret]. rewrite Hf.
  cbn [json_load]. rewrite (from_dict_to_dict t Hv). reflexivity.
Qed.

(** X3: when no valid token is in memory and the token file holds an expired token whose refresh token is falsy, [authenticate()] loads it, logs 'Could not load token' and falls back to a full password login. *)
Theorem expired_without_refresh_token_relogs s t :
  (forall t0, token s = Some t0 -> is_expired (clk s) t0 = Ok true) ->
  token_file s = Some (FJson (AuthToken_to_dict t)) ->
  valid_datetime (expires_at t) = true ->
  is_expired (clk s) t = Ok true ->
  truthy (refresh_token t) = false ->
  authenticate false s
  = _authenticate_new (add_log "Could not load token" (set_token (Some t) s)).
Proof.
  intros Hmem Hf Hv He Hrt.
  assert (Hc : (if false then ret None
                else match token s with
                     | Some t => e <- lift (is_expired (clk s) t) ;; ret (if e then None else Some t)
                     | None => ret None
                     end) s = (Ok None, s)).
  { cbv iota. destruct (token s) as [t0|] eqn:Et; [|reflexivity].
    cbv [bind lift ret]. rewrite (Hmem t0 eq_refl). reflexivity. }
  unfold authenticate. unfold bind at 1. unfold get at 1. cbv beta.
  unfold bind at 1. rewrite Hc. cbv beta iota.
  cbv [try_except bind modify ret lift get].
  rewrite (load_token_saved s t Hf Hv). cbv beta iota.
  cbn [clk set_token]. rewrite He. cbv beta iota.
  cbv [_refresh_token bind get raise]. cbn [token set_token]. rewrite Hrt. reflexivity.
Qed.

(** X6: a legacy token file whose [expiry_time] is not a number is not migrated: [_load_token] logs 'Could not migrate legacy token', returns no token and leaves the state otherwise unchanged (the legacy file stays). *)
Theorem legacy_nonnumeric_expiry_kept s kvs v :
  token_file s = None -> legacy_file s = Some (FJson (JObj kvs)) ->
  assoc "expiry_time" kvs = Some v -> is_int_or_float v = false ->
  _load_token s = (Ok None, add_log "Could not migrate legacy token" s).
Proof.
  intros Htf Hlf Hv Hn.
  assert (Hft : fromtimestamp (clk s) v = Err TypeError)
    by (destruct v; try discriminate; reflexivity).
  cbv [_load_token _migrate_legacy_token try_except bind lift get ret log modify json_load].
  rewrite Htf, Hlf. cbv [py_get py_contains py_getitem]. rewrite Hv, Hft. reflexivity.
Qed.

(** X5: with no token file, a legacy token file with neither [expiry_time] nor a numeric [expiry_date], and whose [AuthenticationResult] is a dict or absent, migrates to a token that is already expired, and the legacy file is removed. *)
Theorem legacy_without_expiry_expired s kvs :
  token_file s = None -> legacy_file s = Some (FJson (JObj kvs)) ->
  assoc "expiry_time" kvs = None ->
  match assoc "expiry_date" kvs with Some v => is_int_or_float v = false | None => True end ->
  match assoc "AuthenticationResult" kvs with None | Some (JObj _) => True | Some _ => False end ->
  0 <= local_of_posix (clk s) (clock_us (clk s)) < MAXORDINAL * US_PER_DAY ->
  exists t, fst (_load_token s) = Ok (Some t)
    /\ is_expired (clk s) t = Ok true
    /\ legacy_file (snd (_load_token s)) = None.
Proof.
  intros Htf Hlf Ht Hd Har Hnow.
  destruct (datetime_now_ok (clk s) Hnow) as (now & Hn & Hnl & Hnz).
  assert (Hpa : exists akvs, py_get (JObj kvs) "AuthenticationResult" (JObj []) = Ok (JObj akvs)).
  { unfold py_get. destruct (assoc "AuthenticationResult" kvs) as [[]|]; try contradiction; eauto. }
  destruct Hpa as [akvs Hpa].
  assert (Hexp : (has_date <- lift (py_contains "expiry_date" (JObj kvs)) ;;
                  if has_date then
                    (v <- lift (py_getitem (JObj kvs) "expiry_date") ;;
                     if is_int_or_float v then lift (fromtimestamp (clk s) v)
                     else lift (datetime_now (clk s)))
                  else lift (datetime_now (clk s))) s = (Ok now, s)).
  { cbv [bind lift py_contains py_getitem].
    destruct (assoc "expiry_date" kvs) as [v|]; [rewrite Hd|]; exact (f_equal (fun r => (r, s)) Hn). }
  set (t := mkAuthToken (dict_get akvs "AccessToken" (JStr "")) (dict_get akvs "IdToken" (JStr ""))
              (dict_get akvs "RefreshToken" (JStr "")) (dict_get akvs "TokenType" (JStr "Bearer")) now).
  exists t.
  assert (He : is_expired (clk s) t = Ok true).
  { unfold is_expired; cbn [expires_at t]. rewrite Hn. cbn [rbind]. unfold dt_ge.
    rewrite Hnz. f_equal. apply Z.leb_refl. }
  split; [|split; [exact He|]]; clear He;
  destruct s as [tok tf lf lb prov snt c lg]; cbn [token_file legacy_file clk lock_busy] in *; subst;
  cbv [_load_token _migrate_legacy_token try_except bind lift get ret modify
       json_load token_file legacy_file clk];
  rewrite Hpa; cbv [py_contains py_getitem]; rewrite Ht;
  cbv [bind lift py_contains py_getitem] in Hexp; rewrite Hexp;
  cbv [_save_token try_except bind get modify log raise];
  destruct lb; reflexivity.
Qed.

Lemma round_half_even_int q z : Qeq q (inject_Z z) -> round_half_even q = z.
Proof.
  intros Hq. unfold round_half_even.
  assert (Hf : Qfloor q = z) by (rewrite Hq; apply Qfloor_Z).
  rewrite Hf. destruct (Qlt_le_dec (q - inject_Z z) (1 # 2)) as [_|Hle]; [reflexivity|].
  exfalso. rewrite Hq in Hle. unfold Qminus in Hle. rewrite Qplus_opp_r in Hle.
  unfold Qle in Hle. simpl in Hle. lia.
Qed.

Lemma datetime_now_naive c d : datetime_now c = Ok d -> dt_tzoff d = None.
Proof.
  unfold datetime_now. destruct (from_local_us _ None) eqn:E; [|discriminate].
  intros H; injection H as <-. exact (proj2 (local_us_from_local_us _ _ _ E)).
Qed.

(** X7: a token built by [_parse_auth_response] from an integer [ExpiresIn] of n seconds expires n - 100 seconds after now, so it counts as expired right away exactly when n <= 100. *)
Theorem parse_auth_response_expiry c resp ar n t :
  py_getitem resp "AuthenticationResult" = Ok ar ->
  py_getitem ar "ExpiresIn" = Ok (JInt n) ->
  _parse_auth_response c resp = Ok t ->
  (exists now, datetime_now c = Ok now
               /\ local_us (expires_at t) = local_us now + (n - 100) * US_PER_SEC)
  /\ is_expired c t = Ok (n <=? 100).
Proof.
  intros Har Hn Hp. unfold _parse_auth_response in Hp. rewrite Har in Hp. cbn [rbind] in Hp. rewrite Hn in Hp. cbn [rbind] in Hp.
  destruct (datetime_now c) as [now|e] eqn:En; [|discriminate]. cbn [rbind py_number] in Hp.
  assert (Hus : us_of_seconds (inject_Z n - TOKEN_EXPIRY_MARGIN) = (n - 100) * US_PER_SEC).
  { apply round_half_even_int. unfold TOKEN_EXPIRY_MARGIN.
    unfold Qeq, US_PER_SEC; simpl. lia. }
  unfold dt_add_seconds in Hp. rewrite Hus in Hp.
  destruct (from_local_us (local_us now + (n - 100) * US_PER_SEC) (dt_tzoff now)) as [ea|] eqn:Ea;
    [|discriminate].
  cbn [rbind] in Hp.
  destruct (py_getitem ar "AccessToken"); [|discriminate]. cbn [rbind] in Hp.
  destruct (py_getitem ar "IdToken"); [|discriminate]. cbn [rbind] in Hp.
  destruct (py_getitem ar "RefreshToken"); [|discriminate]. cbn [rbind] in Hp.
  destruct (py_getitem ar "TokenType"); [|discriminate]. cbn [rbind] in Hp.
  injection Hp as <-.
  destruct (local_us_from_local_us _ _ _ Ea) as [Hl Hz].
  pose proof (datetime_now_naive c now En) as Hnz.
  split; [exists now; split; [reflexivity | exact Hl]|].
  unfold is_expired. rewrite En. cbn [rbind expires_at]. unfold dt_ge.
  rewrite Hz, Hnz, Hl. f_equal.
  unfold US_PER_SEC.
  destruct (Z.leb_spec (local_us now + (n - 100) * 1000000) (local_us now));
    destruct (Z.leb_spec n 100); lia.
Qed.

Lemma year_walk_bound F y n :
  0 <= n < days_before_year (y + Z.of_nat F) - days_before_year y ->
  y <= fst (year_walk F y n) < y + Z.of_nat F
  /\ 0 <= snd (year_walk F y n) < days_in_year (fst (year_walk F y n)).
Proof.
  revert y n. induction F as [|F IH]; intros y n Hn; cbn [year_walk].
  - rewrite Z.add_0_r in Hn. lia.
  - destruct (Z.ltb_spec n (days_in_year y)); cbn [fst snd]; [lia|].
    rewrite Nat2Z.inj_succ in *.
    destruct (IH (y + 1) (n - days_in_year y)) as [H1 H2].
    + rewrite days_before_year_succ.
      replace (y + 1 + Z.of_nat F) with (y + Z.succ (Z.of_nat F)) by lia. lia.
    + lia.
Qed.

Lemma month_walk_bound F y m n :
  1 <= m -> m + Z.of_nat F <= 12 ->
  0 <= n < days_before_month y (m + Z.of_nat F) + days_in_month y (m + Z.of_nat F)
           - days_before_month y m ->
  m <= fst (month_walk F y m n) <= m + Z.of_nat F
  /\ 0 <= snd (month_walk F y m n) < days_in_month y (fst (month_walk F y m n)).
Proof.
  revert m n. induction F as [|F IH]; intros m n Hm HF Hn; cbn [month_walk].
  - rewrite Z.add_0_r in *. cbn [fst snd]. lia.
  - destruct (Z.ltb_spec n (days_in_month y m)); cbn [fst snd]; [lia|].
    rewrite Nat2Z.inj_succ in *.
    destruct (IH (m + 1) (n - days_in_month y m)) as [H1 H2]; try lia.
    rewrite days_before_month_succ by lia.
    replace (m + 1 + Z.of_nat F) with (m + Z.succ (Z.of_nat F)) by lia. lia.
Qed.

Lemma ord2ymd_range n y m d :
  1 <= n <= MAXORDINAL -> ord2ymd n = (y, m, d) ->
  1 <= y <= 9999 /\ 1 <= m <= 12 /\ 1 <= d <= days_in_month y m.
Proof.
  intros Hn. unfold ord2ymd. cbv zeta.
  set (n0 := n - 1).
  set (y0 := n0 / DI400Y * 400 + 1).
  destruct (year_walk 400 y0 (n0 mod DI400Y)) as [y1 dy1] eqn:Ey.
  destruct (month_walk 11 y1 1 dy1) as [m1 dm1] eqn:Em.
  intros E; injection E as <- <- <-.
  assert (Hq : 0 <= n0 / DI400Y <= 24) by (unfold n0, DI400Y, MAXORDINAL in *; Z.div_mod_to_equations; lia).
  pose proof (Z.mod_pos_bound n0 DI400Y ltac:(unfold DI400Y; lia)) as Hr.
  destruct (year_walk_bound 400 y0 (n0 mod DI400Y)) as [Hy1 Hy2].
  { change (Z.of_nat 400) with 400. unfold y0.
    replace (n0 / DI400Y * 400 + 1 + 400) with ((n0 / DI400Y + 1) * 400 + 1) by ring.
    rewrite !days_before_year_cycle. lia. }
  rewrite Ey in Hy1, Hy2. cbn [fst snd] in Hy1, Hy2. change (Z.of_nat 400) with 400 in Hy1.
  pose proof (year_walk_inv 400 y0 (n0 mod DI400Y)) as Hinv.
  rewrite Ey in Hinv. cbn [fst snd] in Hinv. unfold y0 in Hinv.
  rewrite days_before_year_cycle in Hinv.
  pose proof (Z.div_mod n0 DI400Y ltac:(unfold DI400Y; lia)) as Hdm.
  destruct (month_walk_bound 11 y1 1 dy1) as [Hm1 Hm2]; [lia | cbn; lia | |].
  { change (1 + Z.of_nat 11) with 12.
    unfold days_before_month, days_in_month, days_in_year in *.
    destruct (is_leap y1); cbn; lia. }
  rewrite Em in Hm1, Hm2. cbn [fst snd] in Hm1, Hm2. change (1 + Z.of_nat 11) with 12 in Hm1.
  assert (Hy10000 : y1 <> 10000).
  { intros ->. change (days_before_year 10000) with 3652059 in Hinv.
    unfold n0, MAXORDINAL in *. lia. }
  unfold y0 in Hy1. lia.
Qed.

Lemma from_local_us_valid x d : from_local_us x None = Some d -> valid_datetime d = true.
Proof.
  unfold from_local_us.
  destruct ((0 <=? x) && (x <? MAXORDINAL * US_PER_DAY)) eqn:Hx; [|discriminate].
  apply andb_true_iff in Hx as [Hx1 Hx2]. apply Z.leb_le in Hx1. apply Z.ltb_lt in Hx2.
  destruct (ord2ymd (x / US_PER_DAY + 1)) as [[y m] dd] eqn:E.
  intros H; injection H as <-.
  destruct (ord2ymd_range (x / US_PER_DAY + 1) y m dd) as (Hy & Hm & Hd); [|exact E|].
  { unfold US_PER_DAY, US_PER_SEC, MAXORDINAL in *. Z.div_mod_to_equations; lia. }
  unfold valid_datetime; cbn [dt_year dt_month dt_day dt_hour dt_minute dt_second
    dt_microsecond dt_tzoff].
  unfold US_PER_DAY, US_PER_SEC.
  repeat (apply andb_true_iff; split); try apply Z.leb_le; try apply Z.ltb_lt;
    try reflexivity; Z.div_mod_to_equations; lia.
Qed.

Lemma parse_auth_response_valid c r t :
  _parse_auth_response c r = Ok t -> valid_datetime (expires_at t) = true.
Proof.
  unfold _parse_auth_response, rbind.
  destruct (py_getitem r "AuthenticationResult") as [ar|]; [|discriminate].
  destruct (py_getitem ar "ExpiresIn") as [ei|]; [|discriminate].
  destruct (datetime_now c) as [now|] eqn:En; [|discriminate].
  destruct (py_number ei) as [q|]; [|discriminate].
  destruct (dt_add_seconds now (q - TOKEN_EXPIRY_MARGIN)) as [ea|] eqn:Ea; [|discriminate].
  destruct (py_getitem ar "AccessToken"); [|discriminate].
  destruct (py_getitem ar "IdToken"); [|discriminate].
  destruct (py_getitem ar "RefreshToken"); [|discriminate].
  destruct (py_getitem ar "TokenType"); [|discriminate].
  intros H; injection H as <-. cbn [expires_at].
  unfold dt_add_seconds in Ea. rewrite (datetime_now_naive c now En) in Ea.
  destruct (from_local_us _ None) eqn:E; [|discriminate]. injection Ea as <-.
  exact (from_local_us_valid _ _ E).
Qed.

Lemma authenticate_new_saves s t s' :
  _authenticate_new s = (Ok t, s') -> lock_busy s = false ->
  token_file s' = Some (FJson (AuthToken_to_dict t)) /\ valid_datetime (expires_at t) = true.
Proof.
  intros H Hl.
  cbv [_authenticate_new _save_token bind post_auth lift get ret raise modify try_except log] in H.
  destruct (provider s (length (sent s))) as [|code body]; [discriminate|].
  destruct (code =? 200).
  - destruct (resp_json body) as [j|]; [|discriminate].
    destruct (_parse_auth_response (clk (add_sent PasswordGrant s)) j) as [t'|] eqn:Ep;
      [|discriminate].
    cbn [lock_busy set_token add_sent] in H. rewrite Hl in H. injection H as <- <-.
    split; [reflexivity|]. exact (parse_auth_response_valid _ _ _ Ep).
  - destruct (code =? 400); [|discriminate].
    destruct (resp_json body); [|discriminate].
    destruct (py_get a "__type" (JStr "")); [|discriminate].
    destruct (py_contains "NotAuthorizedException" a0) as [[]|]; [discriminate| |discriminate].
    destruct (py_get a "message" (JStr "Unknown error")); discriminate.
Qed.

Lemma refresh_token_saves s t s' :
  _refresh_token s = (Ok t, s') -> lock_busy s = false ->
  token_file s' = Some (FJson (AuthToken_to_dict t)) /\ valid_datetime (expires_at t) = true.
Proof.
  intros H Hl. cbv [_refresh_token bind get raise] in H.
  destruct (token s) as [old|]; [|discriminate].
  destruct (negb (truthy (refresh_token old))); [discriminate|].
  cbv [post_auth lift ret modify log _save_token try_except bind get raise] in H.
  destruct (provider s (length (sent s))) as [|code body]; [discriminate|].
  destruct (code =? 200).
  - destruct (resp_json body) as [j|]; [|discriminate].
    destruct (py_getitem j "AuthenticationResult") as [ar|]; [|discriminate].
    destruct (py_contains "RefreshToken" ar) as [[]|]; [| |discriminate].
    + destruct (_parse_auth_response _ j) as [t'|] eqn:Ep; [|discriminate].
      cbn [lock_busy set_token add_sent] in H. rewrite Hl in H. injection H as <- <-.
      split; [reflexivity|]. exact (parse_auth_response_valid _ _ _ Ep).
    + destruct (py_setitem ar "RefreshToken" (refresh_token old)) as [ar'|]; [|discriminate].
      destruct (py_setitem j "AuthenticationResult" ar') as [j'|]; [|discriminate].
      destruct (_parse_auth_response _ j') as [t'|] eqn:Ep; [|discriminate].
      cbn [lock_busy set_token add_sent] in H. rewrite Hl in H. injection H as <- <-.
      split; [reflexivity|]. exact (parse_auth_response_valid _ _ _ Ep).
  - destruct ((code =? 400) || (code =? 401)); [|discriminate].
    exact (authenticate_new_saves _ _ _ H Hl).
Qed.

(** X8: a token obtained by [_authenticate_new] or [_refresh_token] while the file lock is free is read back unchanged by the next [_load_token]. *)
Theorem obtained_token_loads_back s t s' :
  _authenticate_new s = (Ok t, s') \/ _refresh_token s = (Ok t, s') ->
  lock_busy s = false ->
  _load_token s' = (Ok (Some t), s').
Proof.
  intros [H|H] Hl;
    [destruct (authenticate_new_saves _ _ _ H Hl) as [Hf Hv]
    |destruct (refresh_token_saves _ _ _ H Hl) as [Hf Hv]];
    exact (load_token_saved s' t Hf Hv).
Qed.

Lemma py_int_errs v e : py_int v = Err e -> e = ValueError \/ e = TypeError.
Proof.
  unfold py_int. destruct v; try (intros H; inversion H; auto; fail).
  destruct (parse_int_literal s); intros H; inversion H; auto.
Qed.

(** X18: [VehicleInfo.from_dict] on a dict fails only with a ValueError or a TypeError, and only when a truthy [vehicle_year] or [year] is present. *)
Theorem VehicleInfo_from_dict_errors kvs :
  match VehicleInfo_from_dict (JObj kvs) with
  | Ok _ => True
  | Err e => (e = ValueError \/ e = TypeError)
             /\ (truthy (dict_get kvs "vehicle_year" JNull) = true
                 \/ truthy (dict_get kvs "year" JNull) = true)
  end.
Proof.
  unfold VehicleInfo_from_dict, dict_get. cbv [rbind py_get py_getitem].
  destruct (truthy (match assoc "vehicle_year" kvs with Some x => x | None => JNull end)) eqn:Hv.
  - destruct (assoc "vehicle_year" kvs) as [vy|]; [|discriminate].
    destruct (py_int vy) eqn:Ei; [exact I|]. split; [exact (py_int_errs _ _ Ei) | left; first [exact Hv | reflexivity]].
  - destruct (truthy (match assoc "year" kvs with Some x => x | None => JNull end)) eqn:Hy;
      [|exact I].
    destruct (assoc "year" kvs) as [y|]; [|discriminate].
    destruct (py_int y) eqn:Ei; [exact I|]. split; [exact (py_int_errs _ _ Ei) | right; first [exact Hy | reflexivity]].
Qed.

Lemma CommandResponse_from_dict_obj kvs c dk :
  exists r, CommandResponse_from_dict (JObj kvs) c dk = Ok r
    /\ cr_command r = c /\ cr_device_key r = dk /\ cr_raw_data r = JObj kvs.
Proof.
  unfold CommandResponse_from_dict. cbv [rbind py_get py_getitem py_contains].
  destruct (assoc "timestamp" kvs) as [v|].
  - cbv [or_none]. destruct (fromisoformat v) as [dt|e] eqn:E.
    + eexists. repeat split.
    + destruct (fromisoformat_errs _ _ E) as [-> | ->]; cbn; eexists; repeat split.
  - eexists. repeat split.
Qed.

(** X19: a valid command answered by 200 with a dict body (whose [parsed], if any, is a dict) returns, after exactly one request, a command response naming the command and the device key, even when the timestamp does not parse. *)
Theorem send_command_200_dict d s h dk c dt kvs :
  get_auth_headers (auth s) = (Ok h, auth s) ->
  api s (http_calls (trace s)) = HResp 200 (BJson (JObj kvs)) ->
  is_available_command c = true ->
  match assoc "parsed" kvs with None | Some (JObj _) => True | Some _ => False end ->
  exists r, send_command d dk c dt s = (Ok r, add_event (EvHttp (ReqCommand dk c dt)) s)
    /\ cr_command r = c /\ cr_device_key r = dk.
Proof.
  intros Hh Hapi Hc Hp. destruct s as [a ap tr vs]; cbn [auth api trace] in Hh, Hapi.
  destruct d; cbn [send_command]; rewrite Hc;
    cbv [negb bind lift_auth http lift raise command_from_response auth api trace];
    rewrite Hh; cbv beta iota; rewrite Hapi; cbn [Z.eqb resp_json py_get];
    destruct (assoc "parsed" kvs) as [[]|]; try contradiction;
    match goal with
    | |- context [CommandResponse_from_dict (JObj ?k) c dk] =>
        destruct (CommandResponse_from_dict_obj k c dk) as (r & -> & Hr1 & Hr2 & _)
    end; exists r; auto.
Qed.

Lemma authenticate_new_ok s t s' :
  _authenticate_new s = (Ok t, s') -> token s' = Some t /\ clk s' = clk s.
Proof.
  intros H.
  cbv [_authenticate_new bind post_auth lift get ret raise modify] in H.
  destruct (provider s (length (sent s))) as [|code body]; [discriminate|].
  destruct (code =? 200).
  - destruct (resp_json body) as [j|]; [|discriminate].
    destruct (_parse_auth_response _ j) as [t'|]; [|discriminate].
    destruct (save_token_frame t' (set_token (Some t') (add_sent PasswordGrant s)))
      as (x' & Hs & Htk & _ & Hck).
    rewrite Hs in H. injection H as <- <-. split; [exact Htk | exact Hck].
  - destruct (code =? 400); [|discriminate].
    destruct (resp_json body); [|discriminate].
    destruct (py_get a "__type" (JStr "")); [|discriminate].
    destruct (py_contains "NotAuthorizedException" a0) as [[]|]; [discriminate| |discriminate].
    destruct (py_get a "message" (JStr "Unknown error")); discriminate.
Qed.

Lemma refresh_token_ok s t s' :
  _refresh_token s = (Ok t, s') -> token s' = Some t /\ clk s' = clk s.
Proof.
  intros H. cbv [_refresh_token bind get raise] in H.
  destruct (token s) as [old|]; [|discriminate].
  destruct (negb (truthy (refresh_token old))); [discriminate|].
  cbv [post_auth lift ret modify log] in H.
  destruct (provider s (length (sent s))) as [|code body]; [discriminate|].
  destruct (code =? 200).
  - destruct (resp_json body) as [j|]; [|discriminate].
    destruct (py_getitem j "AuthenticationResult") as [ar|]; [|discriminate].
    destruct (py_contains "RefreshToken" ar) as [[]|]; [| |discriminate].
    + destruct (_parse_auth_response _ j) as [t'|]; [|discriminate].
      destruct (save_token_frame t' (set_token (Some t') (add_sent (RefreshGrant (refresh_token old)) s)))
        as (x' & Hs & Htk & _ & Hck).
      rewrite Hs in H. injection H as <- <-. split; [exact Htk | exact Hck].
    + destruct (py_setitem ar "RefreshToken" (refresh_token old)) as [ar'|]; [|discriminate].
      destruct (py_setitem j "AuthenticationResult" ar') as [j'|]; [|discriminate].
      destruct (_parse_auth_response _ j') as [t'|]; [|discriminate].
      destruct (save_token_frame t' (set_token (Some t') (add_sent (RefreshGrant (refresh_token old)) s)))
        as (x' & Hs & Htk & _ & Hck).
      rewrite Hs in H. injection H as <- <-. split; [exact Htk | exact Hck].
  - destruct ((code =? 400) || (code =? 401)); [|discriminate].
    destruct (authenticate_new_ok _ _ _ H) as [Ht Hc]. split; [exact Ht|]. rewrite Hc. reflexivity.
Qed.

Ltac clk_crush :=
  repeat (match goal with
          | |- context [match ?x with _ => _ end] =>
              lazymatch x with
              | context [match _ with _ => _ end] => fail
              | _ => destruct x
              end
          end; cbn [fst snd clk set_token add_sent add_log set_token_file set_legacy_file]);
  try reflexivity.

Lemma authenticate_new_clk s : clk (snd (_authenticate_new s)) = clk s.
Proof.
  cbv [_authenticate_new _save_token bind post_auth lift get ret raise modify try_except log].
  clk_crush.
Qed.

Lemma refresh_token_clk s : clk (snd (_refresh_token s)) = clk s.
Proof.
  cbv [_refresh_token _save_token bind post_auth lift get ret raise modify try_except log].
  clk_crush. rewrite authenticate_new_clk. reflexivity.
Qed.

Lemma load_token_clk s : clk (snd (_load_token s)) = clk s.
Proof.
  cbv [_load_token _migrate_legacy_token _save_token bind lift get ret raise modify
       try_except log].
  clk_crush.
Qed.

Ltac auth_crush H :=
  repeat (match type of H with
          | context [match ?x with _ => _ end] =>
              lazymatch x with
              | context [match _ with _ => _ end] => fail
              | _load_token ?y =>
                  let E := fresh "C" in
                  pose proof (load_token_clk y) as E; destruct x eqn:?; cbn [snd] in E
              | _refresh_token ?y =>
                  let E := fresh "C" in
                  pose proof (refresh_token_clk y) as E; destruct x eqn:?; cbn [snd] in E
              | _ => destruct x eqn:?
              end
          end; try discriminate).

Lemma authenticate_ok f s t s' :
  authenticate f s = (Ok t, s') -> token s' = Some t /\ clk s' = clk s.
Proof.
  destruct f.
  - intros H. exact (authenticate_new_ok s t s' H).
  - intros H. unfold authenticate in H. cbv [bind get ret lift try_except modify log] in H.
    auth_crush H.
    all: first
      [ injection H as <- <-;
        try (match goal with E : _refresh_token _ = (Ok _, _) |- _ =>
               destruct (refresh_token_ok _ _ _ E) end);
        cbn [token clk set_token add_log] in *; split; congruence
      | destruct (authenticate_new_ok _ _ _ H);
        cbn [token clk set_token add_log] in *; split; congruence ].
Qed.

(** X9: after [authenticate] returns a token that is not expired, the next [authenticate()] and [get_auth_headers] return that token (and its headers) from memory without any request. *)
Theorem authenticate_then_cached f s t s' :
  authenticate f s = (Ok t, s') -> is_expired (clk s) t = Ok false ->
  authenticate false s' = (Ok t, s')
  /\ get_auth_headers s' = (Ok (token_type t, id_token t), s').
Proof.
  intros H He. destruct (authenticate_ok _ _ _ _ H) as [Ht Hc]. rewrite <- Hc in He.
  assert (Ha : authenticate false s' = (Ok t, s')).
  { cbv [authenticate bind get ret lift]. rewrite Ht. cbv beta iota. rewrite He. reflexivity. }
  split; [exact Ha|]. cbv [get_auth_headers]. unfold bind at 1. rewrite Ha. reflexivity.
Qed.


Lemma json_eqb_str_sym a k : json_eqb (JStr a) k = json_eqb k (JStr a).
Proof. destruct k; try reflexivity. apply String.eqb_sym. Qed.

Lemma json_eqb_str a k : json_eqb k (JStr a) = true -> k = JStr a.
Proof. destruct k; try discriminate. cbn. intros H. apply String.eqb_eq in H. now subst. Qed.

Lemma json_eqb_str_trans a k k' :
  json_eqb k k' = true -> json_eqb (JStr a) k' = json_eqb (JStr a) k.
Proof.
  destruct k, k'; cbn; try discriminate; try reflexivity.
  intros H. apply String.eqb_eq in H. now subst.
Qed.

Lemma registry_get_set a k v reg :
  registry_get (JStr a) (registry_set k v reg)
  = if json_eqb (JStr a) k then Some v else registry_get (JStr a) reg.
Proof.
  induction reg as [|[k' v'] r IH]; cbn [registry_set registry_get]; [reflexivity|].
  destruct (json_eqb k k') eqn:Ek.
  - cbn [registry_get]. rewrite (json_eqb_str_trans a k k' Ek). destruct (json_eqb (JStr a) k); reflexivity.
  - cbn [registry_get]. rewrite IH.
    destruct (json_eqb (JStr a) k') eqn:Ek'; [|reflexivity].
    rewrite json_eqb_str_sym in Ek'. apply json_eqb_str in Ek'. subst k'.
    rewrite json_eqb_str_sym, Ek. reflexivity.
Qed.

Lemma register_vehicles_registry items s l s' a :
  register_vehicles items s = (Ok l, s') ->
  registry_get (JStr a) (vehicles s')
  = match last_with a l with Some i => Some i | None => registry_get (JStr a) (vehicles s) end.
Proof.
  revert s l. induction items as [|vd rest IH]; intros s l H; cbn [register_vehicles] in H.
  - injection H as <- <-. reflexivity.
  - cbv [bind lift ret raise modify] in H.
    destruct (VehicleInfo_from_dict vd) as [info|e]; [|discriminate].
    destruct (hashable (vi_vehicle_id info)); [|discriminate].
    destruct (register_vehicles rest _) as [[infos|e] s2] eqn:Er; [|discriminate].
    injection H as <- <-.
    rewrite (IH _ _ Er). cbn [last_with vehicles].
    destruct (last_with a infos); [reflexivity|].
    rewrite registry_get_set, json_eqb_str_sym. destruct (json_eqb _ _); reflexivity.
Qed.

Lemma register_vehicles_keeps items s a :
  registry_get (JStr a) (vehicles s) <> None ->
  registry_get (JStr a) (vehicles (snd (register_vehicles items s))) <> None.
Proof.
  revert s. induction items as [|vd rest IH]; intros s Hs; cbn [register_vehicles];
    cbv [bind lift ret raise modify]; [exact Hs|].
  destruct (VehicleInfo_from_dict vd) as [info|e]; [|exact Hs].
  destruct (hashable (vi_vehicle_id info)); [|exact Hs].
  specialize (IH (mkClientSt (auth s) (api s) (trace s)
                             (registry_set (vi_vehicle_id info) info (vehicles s)))).
  cbn [vehicles] in IH. rewrite registry_get_set in IH.
  assert (Hk : registry_get (JStr a) (vehicles
           (snd (register_vehicles rest (mkClientSt (auth s) (api s) (trace s)
                   (registry_set (vi_vehicle_id info) info (vehicles s))))))
               <> None).
  { apply IH. destruct (json_eqb _ _); [discriminate | exact Hs]. }
  destruct (register_vehicles rest _) as [[|] s2]; exact Hk.
Qed.

Lemma get_vehicles_ok_inv d s l s' :
  get_vehicles d s = (Ok l, s') -> exists items s1, register_vehicles items s1 = (Ok l, s').
Proof.
  revert s. induction d as [|d IH]; intros s H; cbn [get_vehicles] in H;
    cbv [bind lift_auth http force_refresh modify ret raise lift vehicles_from_response] in H;
    repeat (match type of H with
            | context [match ?x with _ => _ end] => destruct x
            end; try discriminate);
    eauto.
Qed.

Lemma get_vehicles_keeps d s a :
  registry_get (JStr a) (vehicles s) <> None ->
  registry_get (JStr a) (vehicles (snd (get_vehicles d s))) <> None.
Proof.
  revert s. induction d as [|d IH]; intros s Hs; cbn [get_vehicles];
    cbv [bind lift_auth http force_refresh modify ret raise lift vehicles_from_response];
    repeat (match goal with
            | |- context [match ?x with _ => _ end] =>
                lazymatch x with
                | register_vehicles _ _ => fail
                | context [match _ with _ => _ end] => fail
                | _ => destruct x
                end
            end; cbn [snd vehicles add_event]; try exact Hs);
    try (apply IH; exact Hs);
    try (apply register_vehicles_keeps; exact Hs).
Qed.

Lemma last_with_none a l : last_with a l = None -> ~ In (JStr a) (map vi_vehicle_id l).
Proof.
  induction l as [|i r IH]; intros H; [intros []|]. cbn [last_with] in H. cbn [map In].
  destruct (last_with a r); [discriminate|].
  destruct (json_eqb (vi_vehicle_id i) (JStr a)) eqn:E; [discriminate|].
  intros [Hi|Hr]; [|exact (IH eq_refl Hr)].
  rewrite Hi in E. cbn in E. rewrite String.eqb_refl in E. discriminate.
Qed.

Lemma last_with_some a l i :
  last_with a l = Some i ->
  exists l1 l2, l = (l1 ++ i :: l2)%list /\ vi_vehicle_id i = JStr a
    /\ ~ In (JStr a) (map vi_vehicle_id l2).
Proof.
  revert i. induction l as [|i0 r IH]; intros i H; [discriminate|]. cbn [last_with] in H.
  destruct (last_with a r) as [j|] eqn:E.
  - injection H as <-. destruct (IH j eq_refl) as (l1 & l2 & -> & Hj & Hn).
    exists (i0 :: l1), l2. auto.
  - destruct (json_eqb (vi_vehicle_id i0) (JStr a)) eqn:Ei; [|discriminate].
    injection H as <-. exists [], r. split; [reflexivity|]. split.
    + exact (json_eqb_str _ _ Ei).
    + exact (last_with_none _ _ E).
Qed.

(** X10: after [get_vehicles] returns a list naming a vehicle id, [get_vehicle] for that id answers from the registry, without a request, with the last vehicle of the list carrying that id. *)
Theorem get_vehicles_then_get_vehicle d d' s l s' vid :
  get_vehicles d s = (Ok l, s') -> In (JStr vid) (map vi_vehicle_id l) ->
  exists l1 i l2, l = (l1 ++ i :: l2)%list /\ vi_vehicle_id i = JStr vid
    /\ ~ In (JStr vid) (map vi_vehicle_id l2)
    /\ get_vehicle d' vid s' = (Ok i, s').
Proof.
  intros H Hin. destruct (get_vehicles_ok_inv _ _ _ _ H) as (items & s1 & Hr).
  pose proof (register_vehicles_registry _ _ _ _ vid Hr) as Hreg.
  destruct (last_with vid l) as [i|] eqn:E; [|exact (False_ind _ (last_with_none _ _ E Hin))].
  destruct (last_with_some _ _ _ E) as (l1 & l2 & Hl & Hi & Hn).
  exists l1, i, l2. repeat split; auto.
  cbv [get_vehicle bind get ret]. rewrite Hreg. reflexivity.
Qed.

(** X11: a vehicle id already in the registry is still there after any [get_vehicles], successful or not, so [get_vehicle] answers it without a request. *)
Theorem registered_vehicle_stays d d' s vid v :
  registry_get (JStr vid) (vehicles s) = Some v ->
  exists v', get_vehicle d' vid (snd (get_vehicles d s)) = (Ok v', snd (get_vehicles d s)).
Proof.
  intros H. assert (Hk := get_vehicles_keeps d s vid ltac:(rewrite H; discriminate)).
  destruct (registry_get (JStr vid) (vehicles (snd (get_vehicles d s)))) as [v'|] eqn:E;
    [|contradiction].
  exists v'. cbv [get_vehicle bind get ret]. rewrite E. reflexivity.
Qed.

(** X12: an API answer with a status other than 200 and 401 and a JSON body makes [get_vehicles], [get_vehicle_status] and [send_command] fail after one request: 404 means vehicle not found for a status, 424 a failed command (when the body is a dict with a dict or no [parsed] field), 429 a rate limit, any other an API error. *)
Theorem api_error_statuses d s h code j :
  get_auth_headers (auth s) = (Ok h, auth s) ->
  api s (http_calls (trace s)) = HResp code (BJson j) ->
  code <> 200 -> code <> 401 ->
  get_vehicles d s
  = (Err (if code =? 429 then RateLimitError code else APIError code),
     add_event (EvHttp ReqVehicles) s)
  /\ (forall vid, get_vehicle_status d vid s
        = (Err (if code =? 404 then VehicleNotFoundError
                else if code =? 429 then RateLimitError code else APIError code),
           add_event (EvHttp (ReqStatus vid)) s))
  /\ (forall dk c dt, is_available_command c = true ->
        (code = 424 -> exists kvs, j = JObj kvs
           /\ match assoc "parsed" kvs with None | Some (JObj _) => True | Some _ => False end) ->
        send_command d dk c dt s
        = (Err (if code =? 424 then CommandFailedError code
                else if code =? 429 then RateLimitError code else APIError code),
           add_event (EvHttp (ReqCommand dk c dt)) s)).
Proof.
  intros Hh Hapi H200 H401. destruct s as [a ap tr vs]; cbn [auth api trace] in Hh, Hapi.
  apply Z.eqb_neq in H200, H401.
  split; [|split].
  - destruct d; cbn [get_vehicles]; cbv [bind lift_auth http lift raise auth api trace];
      rewrite Hh; cbv beta iota; cbn [api trace]; rewrite Hapi; rewrite H200, H401;
      destruct (code =? 429); reflexivity.
  - intros vid.
    destruct d; cbn [get_vehicle_status]; cbv [bind lift_auth http lift raise auth api trace];
      rewrite Hh; cbv beta iota; cbn [api trace]; rewrite Hapi; rewrite H200, H401;
      destruct (code =? 404); try reflexivity; destruct (code =? 429); reflexivity.
  - intros dk c dt Hc H424.
    destruct d; cbn [send_command]; rewrite Hc; cbv [negb bind lift_auth http lift raise auth api trace];
      rewrite Hh; cbv beta iota; cbn [api trace]; rewrite Hapi; rewrite H200, H401;
      (destruct (Z.eqb_spec code 424) as [E|E];
       [ destruct (H424 E) as (kvs & -> & Hp); subst code; cbn [resp_json py_get];
         destruct (assoc "parsed" kvs) as [[]|]; try contradiction; reflexivity
       | destruct (code =? 429); reflexivity ]).
Qed.

(** X13: a non-JSON body with a status other than 401 makes [get_vehicles], [get_vehicle_status] (for a status other than 404) and [send_command] fail with a JSON decode error after one request. *)
Theorem api_text_body_decode_error d s h code :
  get_auth_headers (auth s) = (Ok h, auth s) ->
  api s (http_calls (trace s)) = HResp code BText ->
  code <> 401 ->
  get_vehicles d s = (Err JSONDecodeError, add_event (EvHttp ReqVehicles) s)
  /\ (forall vid, code <> 404 ->
        get_vehicle_status d vid s = (Err JSONDecodeError, add_event (EvHttp (ReqStatus vid)) s))
  /\ (forall dk c dt, is_available_command c = true ->
        send_command d dk c dt s
        = (Err JSONDecodeError, add_event (EvHttp (ReqCommand dk c dt)) s)).
Proof.
  intros Hh Hapi H401. destruct s as [a ap tr vs]; cbn [auth api trace] in Hh, Hapi.
  apply Z.eqb_neq in H401.
  split; [|split].
  - destruct d; cbn [get_vehicles]; cbv [bind lift_auth http lift raise vehicles_from_response auth api trace];
      rewrite Hh; cbv beta iota; cbn [api trace]; rewrite Hapi;
      destruct (code =? 200); try reflexivity; rewrite H401;
      destruct (code =? 429); reflexivity.
  - intros vid H404. apply Z.eqb_neq in H404.
    destruct d; cbn [get_vehicle_status]; cbv [bind lift_auth http lift raise status_from_response auth api trace];
      rewrite Hh; cbv beta iota; cbn [api trace]; rewrite Hapi;
      destruct (code =? 200); try reflexivity; rewrite H401, H404;
      destruct (code =? 429); reflexivity.
  - intros dk c dt Hc.
    destruct d; cbn [send_command]; rewrite Hc;
      cbv [negb bind lift_auth http lift raise command_from_response auth api trace];
      rewrite Hh; cbv beta iota; cbn [api trace]; rewrite Hapi;
      destruct (code =? 200); try reflexivity; rewrite H401;
      destruct (code =? 424); try reflexivity; destruct (code =? 429); reflexivity.
Qed.

(** X14: when the API cannot be reached, [get_vehicles], [get_vehicle_status] and [send_command] fail with a network error. *)
Theorem api_network_error d s h :
  get_auth_headers (auth s) = (Ok h, auth s) ->
  api s (http_calls (trace s)) = HExc ->
  get_vehicles d s = (Err NetworkError, add_event (EvHttp ReqVehicles) s)
  /\ (forall vid,
        get_vehicle_status d vid s = (Err NetworkError, add_event (EvHttp (ReqStatus vid)) s))
  /\ (forall dk c dt, is_available_command c = true ->
        send_command d dk c dt s
        = (Err NetworkError, add_event (EvHttp (ReqCommand dk c dt)) s)).
Proof.
  intros Hh Hapi. destruct s as [a ap tr vs]; cbn [auth api trace] in Hh, Hapi.
  split; [|split]; [| intros vid | intros dk c dt Hc];
    destruct d; cbn [get_vehicles get_vehicle_status send_command];
    try (rewrite Hc; cbv [negb]);
    cbv [bind lift_auth http raise auth api trace]; rewrite Hh; cbv beta iota; cbn [api trace];
    rewrite Hapi; reflexivity.
Qed.

Lemma send_command_trace d dk c dt s :
  exists rest, trace (snd (send_command d dk c dt s)) = (trace s ++ rest)%list
    /\ Forall (fun e => e = EvHttp (ReqCommand dk c dt) \/ e = EvForceRefresh) rest.
Proof.
  revert s. induction d as [|d IH]; intros s; cbn [send_command];
    destruct (is_available_command c); cbv [negb];
    try (exists []; split; [symmetry; apply app_nil_r | constructor]; fail);
    cbv [bind lift_auth http force_refresh modify ret raise lift command_from_response
         add_event];
    repeat (match goal with
            | |- context [match ?x with _ => _ end] =>
                lazymatch x with
                | send_command _ _ _ _ _ => fail
                | context [match _ with _ => _ end] => fail
                | _ => destruct x
                end
            end; cbn [snd trace]);
    first
      [ exists []; split; [symmetry; apply app_nil_r | constructor]
      | exists [EvHttp (ReqCommand dk c dt)];
        split; [reflexivity | constructor; [left; reflexivity | constructor]]
      | exists [EvHttp (ReqCommand dk c dt); EvForceRefresh];
        split; [rewrite <- app_assoc; reflexivity
               | constructor; [left; reflexivity|];
                 constructor; [right; reflexivity | constructor]]
      | match goal with
        | |- exists rest, trace (snd (send_command d dk c dt ?s')) = _ /\ _ =>
            destruct (IH s') as (rest & Ht & Hf);
            exists ([EvHttp (ReqCommand dk c dt); EvForceRefresh] ++ rest)%list;
            rewrite Ht; cbn [trace]; split;
            [ rewrite <- !app_assoc; reflexivity
            | constructor; [left; reflexivity|];
              constructor; [right; reflexivity | exact Hf] ]
        end ].
Qed.

Lemma action_command_available a : is_available_command (action_command a) = true.
Proof. destruct a; reflexivity. Qed.

(** X15: every command method of [Vehicle] and [poll_status] never fails with an invalid-command error, leaves the vehicle object unchanged, and only ever sends its own command to the vehicle's device key (vehicle device type, or controller type for DEVICE_STATUS), interleaved with forced refreshes. *)
Theorem vehicle_commands_requests d c v :
  (forall a,
     fst (Vehicle_action d a (c, v)) <> Err InvalidCommandError
     /\ snd (snd (Vehicle_action d a (c, v))) = v
     /\ exists rest, trace (fst (snd (Vehicle_action d a (c, v)))) = (trace c ++ rest)%list
        /\ Forall (fun e => e = EvHttp (ReqCommand (veh_device_key v) (action_command a)
                                                  DEVICE_TYPE_VEHICLE)
                            \/ e = EvForceRefresh) rest)
  /\ (fst (Vehicle_poll_status d (c, v)) <> Err InvalidCommandError
      /\ snd (snd (Vehicle_poll_status d (c, v))) = v
      /\ exists rest, trace (fst (snd (Vehicle_poll_status d (c, v)))) = (trace c ++ rest)%list
         /\ Forall (fun e => e = EvHttp (ReqCommand (veh_device_key v) "DEVICE_STATUS"
                                                   DEVICE_TYPE_CONTROLLER)
                             \/ e = EvForceRefresh) rest).
Proof.
  split; [intros a|];
    cbv [Vehicle_action Vehicle_poll_status poll_device_status bind get on_client];
    cbn [fst snd];
    match goal with
    | |- context [send_command d ?dk ?cmd ?dt c] =>
        pose proof (send_command_valid_exns d dk cmd dt
                      ltac:(first [apply action_command_available | reflexivity]) c) as Hx;
        destruct (send_command_trace d dk cmd dt c) as (rest & Ht & Hf);
        destruct (send_command d dk cmd dt c) as [r c'];
        cbn [fst snd] in *
    end;
    (split; [destruct r; [discriminate | intros E; injection E as E; exact (Hx E)] | split; [reflexivity | eauto]]).
Qed.

(** X16: [Vehicle.get_status(use_cache=True)] with a cached status returns it without any request. *)
Theorem vehicle_get_status_cached d c v st :
  cached_status v = Some st -> Vehicle_get_status d true (c, v) = (Ok st, (c, v)).
Proof. intros H. cbv [Vehicle_get_status bind get ret]. cbn [snd]. rewrite H. reflexivity. Qed.

(** X17: when the cache is not used or empty, [Vehicle.get_status] returns what [get_vehicle_status] returns for the vehicle's id, with the same client effects, and caches the status only on success. *)
Theorem vehicle_get_status_fetch d (use_cache : bool) c v :
  (if use_cache then cached_status v else None) = None ->
  fst (Vehicle_get_status d use_cache (c, v)) = fst (get_vehicle_status d (veh_vehicle_id v) c)
  /\ fst (snd (Vehicle_get_status d use_cache (c, v)))
     = snd (get_vehicle_status d (veh_vehicle_id v) c)
  /\ veh_vehicle_id (snd (snd (Vehicle_get_status d use_cache (c, v)))) = veh_vehicle_id v
  /\ veh_device_key (snd (snd (Vehicle_get_status d use_cache (c, v)))) = veh_device_key v
  /\ cached_status (snd (snd (Vehicle_get_status d use_cache (c, v))))
     = match fst (get_vehicle_status d (veh_vehicle_id v) c) with
       | Ok st => Some st
       | Err _ => cached_status v
       end.
Proof.
  intros H. cbv [Vehicle_get_status bind get ret modify on_client]. cbn [snd fst].
  rewrite H. change (fst (c, v)) with c. change (snd (c, v)) with v. destruct (get_vehicle_status d (veh_vehicle_id v) c) as [[st|e] c'];
    repeat split.
Qed.

(** ** Witnesses of the further properties *)

Lemma authenticate_new_error_classes_witness :
  fst (_authenticate_new auth_refresh_rejected) = Err InvalidCredentialsError.
Proof.
  exact (proj2 (proj2 (authenticate_new_error_classes auth_refresh_rejected))
           [("__type", JStr "NotAuthorizedException")] "NotAuthorizedException" eq_refl eq_refl).
Defined.

Lemma expired_without_refresh_token_relogs_witness :
  authenticate false auth_expired_no_rt
  = _authenticate_new (add_log "Could not load token"
                               (set_token (Some token_2020_no_rt) auth_expired_no_rt)).
Proof.
  apply (expired_without_refresh_token_relogs auth_expired_no_rt token_2020_no_rt).
  - intros t0 H; discriminate.
  - reflexivity.
  - vm_compute; reflexivity.
  - vm_compute; reflexivity.
  - reflexivity.
Defined.

Lemma load_token_primary_only_witness :
  legacy_file (snd (_load_token auth_with_legacy)) = legacy_file auth_with_legacy.
Proof.
  exact (proj1 (load_token_primary_only auth_with_legacy (FJson expired_token_file) eq_refl)).
Defined.

Lemma legacy_without_expiry_expired_witness :
  exists t, fst (_load_token auth_legacy_no_expiry) = Ok (Some t)
    /\ is_expired (clk auth_legacy_no_expiry) t = Ok true
    /\ legacy_file (snd (_load_token auth_legacy_no_expiry)) = None.
Proof.
  apply (legacy_without_expiry_expired auth_legacy_no_expiry legacy_no_expiry_kvs);
    try reflexivity; try exact I.
  split; [apply Z.leb_le | apply Z.ltb_lt]; vm_compute; reflexivity.
Defined.

Lemma legacy_nonnumeric_expiry_kept_witness :
  _load_token auth_legacy_str_expiry
  = (Ok None, add_log "Could not migrate legacy token" auth_legacy_str_expiry).
Proof.
  exact (legacy_nonnumeric_expiry_kept auth_legacy_str_expiry legacy_str_expiry_kvs
           (JStr "1800000000") eq_refl eq_refl eq_refl eq_refl).
Defined.

Lemma parse_auth_response_expiry_witness :
  exists t, _parse_auth_response clk0 auth_ok_body = Ok t /\ is_expired clk0 t = Ok false.
Proof.
  destruct (_parse_auth_response clk0 auth_ok_body) as [t|e] eqn:E;
    [|vm_compute in E; discriminate].
  exists t. split; [reflexivity|].
  exact (proj2 (parse_auth_response_expiry clk0 auth_ok_body auth_result_ok 3600 t
                  eq_refl eq_refl E)).
Defined.

Lemma obtained_token_loads_back_witness :
  exists t s', _authenticate_new auth_legacy_only = (Ok t, s')
    /\ _load_token s' = (Ok (Some t), s').
Proof.
  destruct (_authenticate_new auth_legacy_only) as [[t|e] s'] eqn:E;
    [|vm_compute in E; discriminate].
  exists t, s'. split; [reflexivity|].
  exact (obtained_token_loads_back auth_legacy_only t s' (or_introl E) eq_refl).
Defined.

Lemma authenticate_then_cached_witness :
  exists t s', authenticate true auth_legacy_only = (Ok t, s')
    /\ authenticate false s' = (Ok t, s').
Proof.
  destruct (authenticate true auth_legacy_only) as [r s'] eqn:E.
  vm_compute in E. injection E as <- <-.
  eexists; eexists; split; [reflexivity|].
  refine (proj1 (authenticate_then_cached true auth_legacy_only _ _ _ _)).
  - vm_compute; reflexivity.
  - vm_compute; reflexivity.
Defined.

Lemma get_vehicles_then_get_vehicle_witness :
  exists l s' i, get_vehicles 1 (client_const (HResp 200 (BJson two_v1_body)) []) = (Ok l, s')
    /\ get_vehicle 0 "v1" s' = (Ok i, s').
Proof.
  destruct (get_vehicles 1 (client_const (HResp 200 (BJson two_v1_body)) [])) as [r s'] eqn:E.
  vm_compute in E. injection E as <- <-.
  edestruct (get_vehicles_then_get_vehicle 1 0 (client_const (HResp 200 (BJson two_v1_body)) []))
    as (l1 & i & l2 & _ & _ & _ & Hg);
    [vm_compute; reflexivity | vm_compute; left; reflexivity |].
  eexists; eexists; exists i; split; [vm_compute; reflexivity | exact Hg].
Defined.

Lemma registered_vehicle_stays_witness :
  exists v', get_vehicle 0 "v1"
               (snd (get_vehicles 1 (client_const (HResp 200 (BJson (JObj [("results", JArr [])])))
                                                 [(JStr "v1", info_v1)])))
             = (Ok v', snd (get_vehicles 1 (client_const (HResp 200 (BJson (JObj [("results", JArr [])])))
                                                      [(JStr "v1", info_v1)]))).
Proof.
  exact (registered_vehicle_stays 1 0 (client_const (HResp 200 (BJson (JObj [("results", JArr [])])))
                                               [(JStr "v1", info_v1)]) "v1" info_v1 eq_refl).
Defined.

Lemma api_error_statuses_witness :
  get_vehicles 1 (client_const (HResp 429 (BJson (JObj []))) [])
  = (Err (RateLimitError 429),
     add_event (EvHttp ReqVehicles) (client_const (HResp 429 (BJson (JObj []))) [])).
Proof.
  exact (proj1 (api_error_statuses 1 (client_const (HResp 429 (BJson (JObj []))) [])
                  (JStr "Bearer", JStr "i0") 429 (JObj [])
                  ltac:(vm_compute; reflexivity) eq_refl ltac:(discriminate) ltac:(discriminate))).
Defined.

Lemma api_text_body_decode_error_witness :
  get_vehicles 1 (client_const (HResp 500 BText) [])
  = (Err JSONDecodeError, add_event (EvHttp ReqVehicles) (client_const (HResp 500 BText) [])).
Proof.
  exact (proj1 (api_text_body_decode_error 1 (client_const (HResp 500 BText) [])
                  (JStr "Bearer", JStr "i0") 500
                  ltac:(vm_compute; reflexivity) eq_refl ltac:(discriminate))).
Defined.

Lemma api_network_error_witness :
  get_vehicles 1 (client_const HExc [])
  = (Err NetworkError, add_event (EvHttp ReqVehicles) (client_const HExc [])).
Proof.
  exact (proj1 (api_network_error 1 (client_const HExc []) (JStr "Bearer", JStr "i0")
                  ltac:(vm_compute; reflexivity) eq_refl)).
Defined.

Lemma vehicle_get_status_cached_witness :
  Vehicle_get_status 0 true (client_always_401, mkVehicle "v1" "dk1" (Some status_v1))
  = (Ok status_v1, (client_always_401, mkVehicle "v1" "dk1" (Some status_v1))).
Proof.
  exact (vehicle_get_status_cached 0 client_always_401 (mkVehicle "v1" "dk1" (Some status_v1))
           status_v1 eq_refl).
Defined.

Lemma vehicle_get_status_fetch_witness :
  cached_status (snd (snd (Vehicle_get_status 1 true (client_401_once, mkVehicle "v1" "dk1" None))))
  = match fst (get_vehicle_status 1 "v1" client_401_once) with
    | Ok st => Some st
    | Err _ => None
    end.
Proof.
  exact (proj2 (proj2 (proj2 (proj2 (vehicle_get_status_fetch 1 true client_401_once
                                       (mkVehicle "v1" "dk1" None) eq_refl))))).
Defined.

Lemma send_command_200_dict_witness :
  exists r, send_command 1 "dk1" "REMOTE_START" DEVICE_TYPE_VEHICLE
              (client_const (HResp 200 (BJson (JObj [("success", JBool true)]))) [])
            = (Ok r, add_event (EvHttp (ReqCommand "dk1" "REMOTE_START" DEVICE_TYPE_VEHICLE))
                               (client_const (HResp 200 (BJson (JObj [("success", JBool true)]))) []))
    /\ cr_command r = "REMOTE_START" /\ cr_device_key r = "dk1".
Proof.
  exact (send_command_200_dict 1 (client_const (HResp 200 (BJson (JObj [("success", JBool true)]))) [])
           (JStr "Bearer", JStr "i0") "dk1" "REMOTE_START" DEVICE_TYPE_VEHICLE
           [("success", JBool true)] ltac:(vm_compute; reflexivity) eq_refl eq_refl I).
Defined.
